(** * mt4zmq over Winsock: a shallow embedding of [mt4zmq_winsock_fixed.cpp]

    The DLL offers a publish/subscribe layer over raw TCP sockets behind an
    integer-handle API.  This development embeds its functions as Rocq
    functions over an explicit record of the process globals, and proves
    properties of the address parser, the wire framing, the handle registry,
    and the send and receive paths.

    Conventions of the embedding.
    - [std::string] is [string]: a sequence of 8-bit characters, NUL included.
    - [int] is [Z]; the one place where an [int] is incremented
      ([g_next_handle++]) wraps to 32 bits, see [int_wrap].
    - [std::map<int, ZMQSocket*>] is [gmap Z ZMQSocket]; writing through the
      pointer is re-inserting the updated record under the same key.
    - Every Winsock call is logged as a [syscall]; what the operating system
      answers during one API call is given by a record [OS].
    - The critical section [g_cs] serialises the API calls; the embedding is
      sequential and has no counterpart of it.  The lock exists between a
      successful [zmq_init] and [zmq_term], that is on initialised globals;
      there the embedding of [zmq_send_message], [zmq_recv_message] and
      [zmq_close] is exact.  On other globals these three enter a critical
      section that does not exist, which the source leaves undefined.
    - [WideToUtf8] and [MultiByteToWideChar] are the text conversion at the
      API boundary: API functions take and return the UTF-8 side. *)

From Stdlib Require Import ZArith Ascii String List Lia DecimalString DecimalN DecimalPos.
From stdpp Require Import base gmap list strings sorting.

Local Open Scope Z_scope.

(* stdpp seals string concatenation against [simpl]; the proofs below compute
   with it on constructors. *)
#[local] Arguments String.append !_ _ / : simpl nomatch.

(** ** [std::string] operations used by the DLL *)

Module StdString.

(** [s.substr(pos)].  Every call site has [pos <= s.size()], so the
    [std::out_of_range] case is not reached; past the end the result is empty. *)
Fixpoint substr_from (pos : nat) (s : string) : string :=
  match pos, s with
  | O, _ => s
  | S p, String _ s' => substr_from p s'
  | S _, EmptyString => EmptyString
  end.

(** [s.substr(0, n)]: the first [n] characters, or all of [s] when shorter. *)
Fixpoint substr_to (n : nat) (s : string) : string :=
  match n, s with
  | O, _ => EmptyString
  | S _, EmptyString => EmptyString
  | S p, String c s' => String c (substr_to p s')
  end.

(** [s.find(c)]: position of the first [c]; [None] is [std::string::npos]. *)
Fixpoint find (c : ascii) (s : string) : option nat :=
  match s with
  | EmptyString => None
  | String c' s' => if decide (c' = c) then Some O else S <$> find c s'
  end.

(** What a consumer of [s.c_str()] reads as a C string: up to the first NUL. *)
Fixpoint c_str (s : string) : string :=
  match s with
  | EmptyString => EmptyString
  | String c s' => if decide (c = Ascii.zero) then EmptyString else String c (c_str s')
  end.

(** [c] occurs in [s]. *)
Fixpoint occurs (c : ascii) (s : string) : Prop :=
  match s with
  | EmptyString => False
  | String c' s' => c' = c \/ occurs c s'
  end.

End StdString.

Import StdString.

(** ** Framing: [topic ++ NUL ++ payload] *)

Definition NUL : ascii := Ascii.zero.

(** [zmq_send_message], line 237: [topicStr + '\0' + msgStr]. *)
Definition frame_encode (topicStr msgStr : string) : string :=
  (topicStr +:+ String NUL EmptyString) +:+ msgStr.

(** [zmq_recv_message], lines 367-374: split the bytes read at the first NUL. *)
Definition frame_decode (data : string) : option (string * string) :=
  match find NUL data with
  | None => None
  | Some nullPos =>
      let topicStr := substr_to nullPos data in
      let msgStr := substr_from (nullPos + 1) data in
      Some (topicStr, msgStr)
  end.

(** ** [std::stoi]

    [ParseAddress] reads the port with [std::stoi], a function of the C++
    standard library.  It is modelled on its specification ([strtol] in base
    10 applied to the C string): leading white space is skipped, one sign is
    optional, the longest run of decimal digits is converted and what follows
    is ignored; no digit at all throws [std::invalid_argument], a value that
    does not fit [int] throws [std::out_of_range].  Both exceptions are [None]. *)

Definition INT_MAX : Z := 2147483647.
Definition INT_MIN : Z := -2147483648.

(** [isspace] in the C locale: space, and HT, LF, VT, FF, CR. *)
Definition isspace (c : ascii) : bool :=
  let n := Z.of_N (N_of_ascii c) in
  (n =? 32) || ((9 <=? n) && (n <=? 13)).

(** The value of a decimal digit character. *)
Definition digit_of (c : ascii) : option Z :=
  let n := Z.of_N (N_of_ascii c) in
  if (48 <=? n) && (n <=? 57) then Some (n - 48) else None.

Fixpoint skip_spaces (s : string) : string :=
  match s with
  | String c s' => if isspace c then skip_spaces s' else s
  | EmptyString => s
  end.

(** The digit run at the head of [s], read left to right from [acc]: its
    value and the number of digits consumed. *)
Fixpoint scan_digits (acc : Z) (s : string) : Z * nat :=
  match s with
  | String c s' =>
      match digit_of c with
      | Some d => let '(v, n) := scan_digits (10 * acc + d) s' in (v, S n)
      | None => (acc, O)
      end
  | EmptyString => (acc, O)
  end.

Definition stoi (str : string) : option Z :=
  let s := skip_spaces str in
  let '(negative, s) :=
    match s with
    | String "-" s' => (true, s')
    | String "+" s' => (false, s')
    | _ => (false, s)
    end in
  let '(magnitude, ndigits) := scan_digits 0 s in
  if decide (ndigits = O) then None
  else
    let value := if negative : bool then - magnitude else magnitude in
    if decide (INT_MIN <= value <= INT_MAX) then Some value else None.

(** ** Winsock: constants, calls and answers *)

(** [SOCKET] is [UINT_PTR]; the DLL is built for the 32-bit terminal. *)
Definition SOCKET : Type := Z.
Definition INVALID_SOCKET : SOCKET := 4294967295.
Definition SOCKET_ERROR : Z := -1.
Definition WSAEWOULDBLOCK : Z := 10035.
Definition INADDR_NONE : Z := 4294967295.

(** One Winsock call as the DLL issues it: arguments, then the value returned. *)
Inductive syscall : Type :=
| sys_WSAStartup (result : Z)
| sys_WSACleanup
| sys_socket (result : SOCKET)
| sys_setsockopt_SO_REUSEADDR (s : SOCKET)
| sys_ioctlsocket_FIONBIO (s : SOCKET)
| sys_bind (s : SOCKET) (sin_addr : Z) (sin_port : Z) (result : Z)
| sys_listen (s : SOCKET) (result : Z)
| sys_connect (s : SOCKET) (sin_addr : Z) (sin_port : Z) (result : Z)
| sys_accept (s : SOCKET) (result : SOCKET)
| sys_send (s : SOCKET) (buf : string) (len : Z) (result : Z)
| sys_select (s : SOCKET) (tv_sec tv_usec : Z) (result : Z)
| sys_recv (s : SOCKET) (len : Z) (result : Z)
| sys_closesocket (s : SOCKET).

(** What the operating system answers during one API call.  Each API function
    issues every call at most once, except [accept] and [send]:
    - [os_accept] lists the values of the successive [accept] calls; once the
      list is used up the backlog is empty and [accept] gives [INVALID_SOCKET];
    - [os_send k s] is the value of the [k]-th [send] of the call, made on
      [s], with the [WSAGetLastError] code that follows it;
    - [os_recv] is the value of [recv] with the bytes it left in the buffer. *)
Record OS : Type := {
  os_WSAStartup : Z;
  os_socket : SOCKET;
  os_inet_addr : string -> Z;
  os_bind : Z;
  os_listen : Z;
  os_connect : Z;
  os_accept : list SOCKET;
  os_send : nat -> SOCKET -> Z * Z;
  os_select : Z;
  os_recv : Z * string
}.

(** ** The socket wrapper and the process globals *)

Record ZMQSocket : Type := {
  socket : SOCKET;
  type : string;
  address : string;
  is_bound : bool;
  clients : list SOCKET
}.

Definition set_clients (cs : list SOCKET) (sock : ZMQSocket) : ZMQSocket :=
  {| socket := socket sock; type := type sock; address := address sock;
     is_bound := is_bound sock; clients := cs |}.

Record Globals : Type := {
  g_initialized : bool;
  g_next_handle : Z;
  g_sockets : gmap Z ZMQSocket;
  g_last_error : string
}.

(** The globals as the static initialisers leave them. *)
Definition initial_globals : Globals :=
  {| g_initialized := false; g_next_handle := 1; g_sockets := ∅;
     g_last_error := EmptyString |}.

(** [int] arithmetic as the 32-bit target computes it (two's complement).
    C++ leaves the overflow of [g_next_handle++] at [INT_MAX] undefined; the
    properties of the counter are stated for runs that stay below it. *)
Definition int_wrap (z : Z) : Z := (z + 2147483648) mod 4294967296 - 2147483648.

(** ** The monad of API code: globals threaded, Winsock calls logged *)

Definition M (A : Type) : Type := Globals -> A * Globals * list syscall.

Definition ret {A : Type} (a : A) : M A := fun g => (a, g, []).

Definition bind {A B : Type} (m : M A) (k : A -> M B) : M B :=
  fun g =>
    let '(a, g1, log1) := m g in
    let '(b, g2, log2) := k a g1 in
    (b, g2, log1 ++ log2).

Notation "x <- m ;; k" := (bind m (fun x => k))
  (at level 100, m at next level, right associativity).
Notation "m ;; k" := (bind m (fun _ => k))
  (at level 100, right associativity).

Definition globals : M Globals := fun g => (g, g, []).
Definition modify (f : Globals -> Globals) : M unit := fun g => (tt, f g, []).
Definition sys (e : syscall) : M unit := fun g => (tt, g, [e]).

Definition value_of {A : Type} (r : A * Globals * list syscall) : A := r.1.1.
Definition globals_of {A : Type} (r : A * Globals * list syscall) : Globals := r.1.2.
Definition log_of {A : Type} (r : A * Globals * list syscall) : list syscall := r.2.

Definition with_initialized (b : bool) (g : Globals) : Globals :=
  {| g_initialized := b; g_next_handle := g_next_handle g;
     g_sockets := g_sockets g; g_last_error := g_last_error g |}.
Definition with_next_handle (h : Z) (g : Globals) : Globals :=
  {| g_initialized := g_initialized g; g_next_handle := h;
     g_sockets := g_sockets g; g_last_error := g_last_error g |}.
Definition with_sockets (m : gmap Z ZMQSocket) (g : Globals) : Globals :=
  {| g_initialized := g_initialized g; g_next_handle := g_next_handle g;
     g_sockets := m; g_last_error := g_last_error g |}.
Definition with_last_error (e : string) (g : Globals) : Globals :=
  {| g_initialized := g_initialized g; g_next_handle := g_next_handle g;
     g_sockets := g_sockets g; g_last_error := e |}.

(** [strncpy_s(g_last_error, 256, error, _TRUNCATE)]: at most 255 characters
    of the C string [error]. *)
Definition SetLastError (error : string) : M unit :=
  modify (with_last_error (substr_to 255 (c_str error))).

(** ** The DLL's functions *)

(** [ParseAddress]: [Some (host, port)] is [true] with the two out-parameters,
    [None] is [false]. *)
Definition ParseAddress (addr : string) : M (option (string * Z)) :=
  if decide (substr_to 6 addr <> "tcp://"%string) then
    SetLastError "Invalid address format (must be tcp://...)";;
    ret None
  else
    let hostPort := substr_from 6 addr in
    match find ":" hostPort with
    | None =>
        SetLastError "Invalid address format (missing port)";;
        ret None
    | Some colonPos =>
        let host := substr_to colonPos hostPort in
        let host := if decide (host = "*"%string) then "0.0.0.0"%string else host in
        match stoi (substr_from (colonPos + 1) hostPort) with
        | None =>
            SetLastError "Invalid port number";;
            ret None
        | Some port => ret (Some (host, port))
        end
    end.

(** [StringToAddr]: the binary address, or [None] for [false]. *)
Definition StringToAddr (os : OS) (ip : string) : option Z :=
  let ulAddr := os_inet_addr os ip in
  if decide (ulAddr = INADDR_NONE /\ ip <> "255.255.255.255"%string) then None
  else Some ulAddr.

(** The [u_short] that [htons] receives from an [int] port. *)
Definition u_short (port : Z) : Z := port mod 65536.

Definition zmq_init (os : OS) : M Z :=
  g <- globals;;
  if g_initialized g then ret 0
  else
    let result := os_WSAStartup os in
    sys (sys_WSAStartup result);;
    if decide (result <> 0) then
      SetLastError "WSAStartup failed";;
      ret (-1)
    else
      modify (with_initialized true);;
      ret 0.

(** [int handle = g_next_handle++; g_sockets[handle] = zmqSock;] *)
Definition register_socket (zmqSock : ZMQSocket) : M Z :=
  g <- globals;;
  let handle := g_next_handle g in
  modify (with_next_handle (int_wrap (handle + 1)));;
  modify (fun g => with_sockets (<[handle := zmqSock]> (g_sockets g)) g);;
  ret handle.

(** [zmq_create_publisher] from the point where it holds the lock
    (lines 137-196). *)
Definition zmq_create_publisher_locked (os : OS) (address : string) : M Z :=
  let addr := address in
  parsed <- ParseAddress addr;;
  match parsed with
  | None => ret (-1)
  | Some (host, port) =>
      let sock := os_socket os in
      sys (sys_socket sock);;
      if decide (sock = INVALID_SOCKET) then
        SetLastError "Failed to create socket";;
        ret (-1)
      else
        sys (sys_setsockopt_SO_REUSEADDR sock);;
        sys (sys_ioctlsocket_FIONBIO sock);;
        match StringToAddr os host with
        | None =>
            sys (sys_closesocket sock);;
            SetLastError "Invalid IP address";;
            ret (-1)
        | Some sin_addr =>
            sys (sys_bind sock sin_addr (u_short port) (os_bind os));;
            if decide (os_bind os = SOCKET_ERROR) then
              sys (sys_closesocket sock);;
              SetLastError "Failed to bind socket";;
              ret (-1)
            else
              sys (sys_listen sock (os_listen os));;
              if decide (os_listen os = SOCKET_ERROR) then
                sys (sys_closesocket sock);;
                SetLastError "Failed to listen on socket";;
                ret (-1)
              else
                register_socket
                  {| socket := sock; type := "PUB"; address := addr;
                     is_bound := true; clients := [] |}
        end
  end.

(** [zmq_create_publisher]: the initialisation on demand (lines 133-135),
    then the rest under the lock. *)
Definition zmq_create_publisher (os : OS) (address : string) : M Z :=
  g <- globals;;
  init_failed <- (if g_initialized g then ret false
                  else r <- zmq_init os;; ret (bool_decide (r <> 0)));;
  if init_failed : bool then ret (-1)
  else zmq_create_publisher_locked os address.

(** The loop of [AcceptConnections] over the answers of [accept], on the
    client list so far. *)
Fixpoint accept_loop (listener : SOCKET) (answers : list SOCKET)
    (cs : list SOCKET) : M (list SOCKET) :=
  match answers with
  | [] =>
      sys (sys_accept listener INVALID_SOCKET);;
      ret cs
  | client :: answers' =>
      sys (sys_accept listener client);;
      if decide (client = INVALID_SOCKET) then ret cs
      else
        sys (sys_ioctlsocket_FIONBIO client);;
        accept_loop listener answers' (cs ++ [client])
  end.

(** Writing [sock->clients] of the socket registered under [handle]. *)
Definition store_clients (handle : Z) (cs : list SOCKET) : M unit :=
  modify (fun g => with_sockets (alter (set_clients cs) handle (g_sockets g)) g).

(** [AcceptConnections(sock)], with [sock] the socket registered under
    [handle]; the new client list is also returned. *)
Definition AcceptConnections (os : OS) (handle : Z) (sock : ZMQSocket) : M (list SOCKET) :=
  cs <- accept_loop (socket sock) (os_accept os) (clients sock);;
  store_clients handle cs;;
  ret cs.

(** The broadcast loop of [zmq_send_message]: [k] sends were made before,
    [cs] are the clients still to serve. *)
Fixpoint send_loop (os : OS) (fullMsg : string) (k : nat) (cs : list SOCKET)
    (disconnected : list SOCKET) : M (list SOCKET) :=
  match cs with
  | [] => ret disconnected
  | client :: cs' =>
      let '(sent, error) := os_send os k client in
      sys (sys_send client fullMsg (Z.of_nat (String.length fullMsg)) sent);;
      let disconnected :=
        if decide (sent = SOCKET_ERROR) then
          if decide (error <> WSAEWOULDBLOCK) then disconnected ++ [client]
          else disconnected
        else disconnected in
      send_loop os fullMsg (S k) cs' disconnected
  end.

(** [clients.erase(std::remove(begin, end, disc), end)]. *)
Definition remove_erase (disc : SOCKET) (cs : list SOCKET) : list SOCKET :=
  filter (fun c => c <> disc) cs.

(** The clean-up loop of [zmq_send_message] on the client list [cs]. *)
Fixpoint remove_loop (disconnected : list SOCKET) (cs : list SOCKET) : M (list SOCKET) :=
  match disconnected with
  | [] => ret cs
  | disc :: rest =>
      sys (sys_closesocket disc);;
      remove_loop rest (remove_erase disc cs)
  end.

Definition zmq_send_message (os : OS) (handle : Z) (topicStr msgStr : string) : M Z :=
  g <- globals;;
  match g_sockets g !! handle with
  | None =>
      SetLastError "Invalid handle";;
      ret (-1)
  | Some sock =>
      cs <- AcceptConnections os handle sock;;
      let fullMsg := frame_encode topicStr msgStr in
      disconnected <- send_loop os fullMsg 0 cs [];;
      cs <- remove_loop disconnected cs;;
      store_clients handle cs;;
      ret 0
  end.

(** [zmq_create_subscriber] from the point where it holds the lock
    (lines 267-318). *)
Definition zmq_create_subscriber_locked (os : OS) (address : string) : M Z :=
  let addr := address in
  parsed <- ParseAddress addr;;
  match parsed with
  | None => ret (-1)
  | Some (host, port) =>
      let host := if decide (host = "localhost"%string) then "127.0.0.1"%string else host in
      let sock := os_socket os in
      sys (sys_socket sock);;
      if decide (sock = INVALID_SOCKET) then
        SetLastError "Failed to create socket";;
        ret (-1)
      else
        match StringToAddr os host with
        | None =>
            sys (sys_closesocket sock);;
            SetLastError "Invalid IP address";;
            ret (-1)
        | Some sin_addr =>
            sys (sys_connect sock sin_addr (u_short port) (os_connect os));;
            if decide (os_connect os = SOCKET_ERROR) then
              sys (sys_closesocket sock);;
              SetLastError "Failed to connect";;
              ret (-1)
            else
              sys (sys_ioctlsocket_FIONBIO sock);;
              register_socket
                {| socket := sock; type := "SUB"; address := addr;
                   is_bound := false; clients := [] |}
        end
  end.

(** [zmq_create_subscriber]: the initialisation on demand (lines 263-265),
    then the rest under the lock. *)
Definition zmq_create_subscriber (os : OS) (address : string) : M Z :=
  g <- globals;;
  init_failed <- (if g_initialized g then ret false
                  else r <- zmq_init os;; ret (bool_decide (r <> 0)));;
  if init_failed : bool then ret (-1)
  else zmq_create_subscriber_locked os address.

Definition zmq_subscribe (handle : Z) (topic : string) : M Z := ret 0.

(** [zmq_recv_message]: the value returned and, when the two output buffers
    are written, the C strings handed to [MultiByteToWideChar] for [topic]
    and [message]. *)
Definition zmq_recv_message (os : OS) (handle : Z) (timeout_ms : Z)
    : M (Z * option (string * string)) :=
  g <- globals;;
  match g_sockets g !! handle with
  | None =>
      SetLastError "Invalid handle";;
      ret (-1, None)
  | Some sock =>
      if decide (type sock <> "SUB"%string) then
        SetLastError "Not a subscriber socket";;
        ret (-1, None)
      else
        let tv_sec := Z.quot timeout_ms 1000 in
        let tv_usec := Z.rem timeout_ms 1000 * 1000 in
        let result := os_select os in
        sys (sys_select (socket sock) tv_sec tv_usec result);;
        if decide (result <= 0) then ret (-1, None)
        else
          let '(received, buffer) := os_recv os in
          sys (sys_recv (socket sock) 4096 received);;
          if decide (received <= 0) then ret (-1, None)
          else
            let data := substr_to (Z.to_nat received) buffer in
            match frame_decode data with
            | None => ret (-1, None)
            | Some (topicStr, msgStr) =>
                ret (0, Some (c_str topicStr, c_str msgStr))
            end
  end.

(** [ZMQSocket::Close], run by the destructor. *)
Fixpoint close_clients (cs : list SOCKET) : M unit :=
  match cs with
  | [] => ret tt
  | client :: cs' => sys (sys_closesocket client);; close_clients cs'
  end.

Definition Close (sock : ZMQSocket) : M unit :=
  (if decide (socket sock <> INVALID_SOCKET) then sys (sys_closesocket (socket sock))
   else ret tt);;
  close_clients (clients sock).

Definition zmq_close (handle : Z) : M Z :=
  g <- globals;;
  match g_sockets g !! handle with
  | None => ret (-1)
  | Some sock =>
      Close sock;;
      modify (fun g => with_sockets (delete handle (g_sockets g)) g);;
      ret 0
  end.

(** The entries of [g_sockets] in the order [std::map] iterates: by key. *)
Definition key_le (a b : Z * ZMQSocket) : Prop := a.1 <= b.1.

#[local] Instance key_le_dec (a b : Z * ZMQSocket) : Decision (key_le a b).
Proof. unfold key_le. apply _. Defined.

Definition in_key_order (m : gmap Z ZMQSocket) : list (Z * ZMQSocket) :=
  merge_sort key_le (map_to_list m).

Fixpoint delete_all (entries : list (Z * ZMQSocket)) : M unit :=
  match entries with
  | [] => ret tt
  | entry :: entries' => Close entry.2;; delete_all entries'
  end.

Definition zmq_term : M unit :=
  g <- globals;;
  if negb (g_initialized g) then ret tt
  else
    delete_all (in_key_order (g_sockets g));;
    modify (with_sockets ∅);;
    sys sys_WSACleanup;;
    modify (with_initialized false).

(** [zmq_get_last_error]: the text handed to [MultiByteToWideChar]. *)
Definition zmq_get_last_error : M string :=
  g <- globals;;
  ret (c_str (g_last_error g)).

(** ** Runs of the API *)

Inductive api_call : Type :=
| call_zmq_init
| call_zmq_term
| call_zmq_create_publisher (address : string)
| call_zmq_create_subscriber (address : string)
| call_zmq_subscribe (handle : Z) (topic : string)
| call_zmq_send_message (handle : Z) (topic message : string)
| call_zmq_recv_message (handle : Z) (timeout_ms : Z)
| call_zmq_close (handle : Z).

(** One call under the answers [os]; the [int] returned ([0] for [void]). *)
Definition perform (os : OS) (c : api_call) : M Z :=
  match c with
  | call_zmq_init => zmq_init os
  | call_zmq_term => zmq_term;; ret 0
  | call_zmq_create_publisher address => zmq_create_publisher os address
  | call_zmq_create_subscriber address => zmq_create_subscriber os address
  | call_zmq_subscribe handle topic => zmq_subscribe handle topic
  | call_zmq_send_message handle topic message => zmq_send_message os handle topic message
  | call_zmq_recv_message handle timeout_ms =>
      r <- zmq_recv_message os handle timeout_ms;; ret r.1
  | call_zmq_close handle => zmq_close handle
  end.

(** A run: the calls in order, each with what it returned, and the globals
    at the end. *)
Fixpoint run (calls : list (OS * api_call)) (g : Globals) : list (api_call * Z) * Globals :=
  match calls with
  | [] => ([], g)
  | (os, c) :: calls' =>
      let '(r, g1, _) := perform os c g in
      let '(rs, g2) := run calls' g1 in
      ((c, r) :: rs, g2)
  end.

(** The handle a call handed out: the value of a creation that did not fail. *)
Definition handle_created (cr : api_call * Z) : option Z :=
  match cr.1 with
  | call_zmq_create_publisher _ | call_zmq_create_subscriber _ =>
      if decide (cr.2 = -1) then None else Some cr.2
  | _ => None
  end.

Definition handles_created (calls : list (OS * api_call)) : list Z :=
  omap handle_created (run calls initial_globals).1.

(** ** Send, stated on lists

    What the three loops of [zmq_send_message] compute, written without loops;
    the theorems below relate the two. *)

(** The connections one call admits: the answers of [accept] before the first
    [INVALID_SOCKET]. *)
Fixpoint admitted (answers : list SOCKET) : list SOCKET :=
  match answers with
  | [] => []
  | c :: answers' => if decide (c = INVALID_SOCKET) then [] else c :: admitted answers'
  end.

(** The peer list that the broadcast serves. *)
Definition peers_served (os : OS) (sock : ZMQSocket) : list SOCKET :=
  clients sock ++ admitted (os_accept os).

(** The [k]-th write failed, and not because it would block. *)
Definition write_failed (os : OS) (k : nat) (c : SOCKET) : Prop :=
  (os_send os k c).1 = SOCKET_ERROR /\ (os_send os k c).2 <> WSAEWOULDBLOCK.

#[local] Instance write_failed_dec os k c : Decision (write_failed os k c).
Proof. unfold write_failed. apply _. Defined.

(** The peers marked disconnected, when [peers] are served from the [k]-th
    write on. *)
Fixpoint marked_from (os : OS) (k : nat) (peers : list SOCKET) : list SOCKET :=
  match peers with
  | [] => []
  | c :: peers' =>
      if decide (write_failed os k c) then c :: marked_from os (S k) peers'
      else marked_from os (S k) peers'
  end.

Definition marked_disconnected (os : OS) (sock : ZMQSocket) : list SOCKET :=
  marked_from os 0 (peers_served os sock).

(** The peer list a send leaves: the peers served, less those marked. *)
Definition peers_kept (os : OS) (sock : ZMQSocket) : list SOCKET :=
  filter (fun c => c ∉ marked_disconnected os sock) (peers_served os sock).

Definition admission_log (listener : SOCKET) (answers : list SOCKET) : list syscall :=
  flat_map (fun c => [sys_accept listener c; sys_ioctlsocket_FIONBIO c]) (admitted answers)
  ++ [sys_accept listener INVALID_SOCKET].

Fixpoint broadcast_from (os : OS) (fullMsg : string) (k : nat) (peers : list SOCKET)
    : list syscall :=
  match peers with
  | [] => []
  | c :: peers' =>
      sys_send c fullMsg (Z.of_nat (String.length fullMsg)) (os_send os k c).1
      :: broadcast_from os fullMsg (S k) peers'
  end.

Definition send_log (os : OS) (sock : ZMQSocket) (topicStr msgStr : string) : list syscall :=
  admission_log (socket sock) (os_accept os)
  ++ broadcast_from os (frame_encode topicStr msgStr) 0 (peers_served os sock)
  ++ (sys_closesocket <$> marked_disconnected os sock).

(** ** Notions used to state the properties *)

(** The messages [ParseAddress] leaves in the last-error text. *)
Definition parse_errors : list string :=
  [ "Invalid address format (must be tcp://...)"%string;
    "Invalid address format (missing port)"%string;
    "Invalid port number"%string ].

(** The host [ParseAddress] hands out for the host written in the address. *)
Definition wildcard (host : string) : string :=
  if decide (host = "*"%string) then "0.0.0.0"%string else host.

(** The decimal numeral of a natural number: most significant digit first,
    no sign, no leading zero. *)
Definition decimal (n : Z) : string := NilEmpty.string_of_uint (N.to_uint (Z.to_N n)).

(** A creation function on globals that are not initialised runs
    [WSAStartup]; when that fails it returns -1, otherwise it goes on as it
    does on initialised globals. *)
Definition after_init (os : OS) (locked : M Z) (g : Globals) : Z * Globals * list syscall :=
  if g_initialized g then locked g
  else if decide (os_WSAStartup os <> 0) then
    (-1, with_last_error "WSAStartup failed" g, [sys_WSAStartup (os_WSAStartup os)])
  else
    (value_of (locked (with_initialized true g)),
     globals_of (locked (with_initialized true g)),
     sys_WSAStartup (os_WSAStartup os) :: log_of (locked (with_initialized true g))).

(** What a creation does to the counter: nothing when it fails, and when it
    succeeds it returns the counter and steps it. *)
Definition creation_outcome (g : Globals) (r : Z * Globals * list syscall) : Prop :=
  (value_of r = -1 /\ g_next_handle (globals_of r) = g_next_handle g)
  \/ (value_of r = g_next_handle g
      /\ g_next_handle (globals_of r) = int_wrap (g_next_handle g + 1)).

(** What a caller of [zmq_recv_message] has in hand after the call: the value
    returned, the output buffers when they were written, and the text that
    [zmq_get_last_error] gives. *)
Definition recv_observation (r : Z * option (string * string) * Globals * list syscall)
    : Z * option (string * string) * string :=
  (value_of r, value_of (zmq_get_last_error (globals_of r))).

(** ** Concrete sockets, globals and answers used in the examples *)

Module Fixture.

Definition WSAECONNRESET : Z := 10054.

Definition pub_socket : ZMQSocket :=
  {| socket := 100; type := "PUB"; address := "tcp://*:5559"; is_bound := true;
     clients := [200; 201; 202] |}.

Definition sub_socket : ZMQSocket :=
  {| socket := 300; type := "SUB"; address := "tcp://127.0.0.1:5559";
     is_bound := false; clients := [] |}.

(** A process with publisher 1 and subscriber 2. *)
Definition g_live : Globals :=
  {| g_initialized := true; g_next_handle := 3;
     g_sockets := <[2 := sub_socket]> (<[1 := pub_socket]> ∅);
     g_last_error := EmptyString |}.

(** Nothing pending, every call succeeds, nothing to read. *)
Definition os_quiet : OS :=
  {| os_WSAStartup := 0; os_socket := 400; os_inet_addr := fun _ => 16777343;
     os_bind := 0; os_listen := 0; os_connect := 0; os_accept := [];
     os_send := fun _ _ => (14, 0); os_select := 0; os_recv := (0, EmptyString) |}.

(** Two connections pending; peer 200 is reset, peer 201 would block. *)
Definition os_busy : OS :=
  {| os_WSAStartup := 0; os_socket := 400; os_inet_addr := fun _ => 16777343;
     os_bind := 0; os_listen := 0; os_connect := 0; os_accept := [203; 204];
     os_send := fun _ s =>
       if decide (s = 200) then (SOCKET_ERROR, WSAECONNRESET)
       else if decide (s = 201) then (SOCKET_ERROR, WSAEWOULDBLOCK)
       else (14, 0);
     os_select := 0; os_recv := (0, EmptyString) |}.

(** Nothing pending; every write fails with a reset. *)
Definition os_all_reset : OS :=
  {| os_WSAStartup := 0; os_socket := 400; os_inet_addr := fun _ => 16777343;
     os_bind := 0; os_listen := 0; os_connect := 0; os_accept := [];
     os_send := fun _ _ => (SOCKET_ERROR, WSAECONNRESET);
     os_select := 0; os_recv := (0, EmptyString) |}.

(** Nothing pending; every write would block. *)
Definition os_all_blocked : OS :=
  {| os_WSAStartup := 0; os_socket := 400; os_inet_addr := fun _ => 16777343;
     os_bind := 0; os_listen := 0; os_connect := 0; os_accept := [];
     os_send := fun _ _ => (SOCKET_ERROR, WSAEWOULDBLOCK);
     os_select := 0; os_recv := (0, EmptyString) |}.

(** [WSAStartup] fails. *)
Definition os_no_winsock : OS :=
  {| os_WSAStartup := 10091; os_socket := 400; os_inet_addr := fun _ => 16777343;
     os_bind := 0; os_listen := 0; os_connect := 0; os_accept := [];
     os_send := fun _ _ => (14, 0); os_select := 0; os_recv := (0, EmptyString) |}.

(** Answers of the receive path: [select] and [recv]. *)
Definition os_receiving (select_result : Z) (recv_result : Z * string) : OS :=
  {| os_WSAStartup := 0; os_socket := 400; os_inet_addr := fun _ => 16777343;
     os_bind := 0; os_listen := 0; os_connect := 0; os_accept := [];
     os_send := fun _ _ => (14, 0); os_select := select_result;
     os_recv := recv_result |}.

Definition os_no_data : OS := os_receiving 0 (0, EmptyString).
Definition os_peer_closed : OS := os_receiving 1 (0, EmptyString).
Definition os_no_separator : OS := os_receiving 1 (3, "abc"%string).

(** The calls of the repository's test harness ([test_mt4zmq.cpp]), in its
    order, with answers under which every socket call succeeds. *)
Definition harness_calls : list (OS * api_call) :=
  [ (os_quiet, call_zmq_init);
    (os_quiet, call_zmq_init);
    (os_quiet, call_zmq_create_publisher "tcp://*:5558");
    (os_quiet, call_zmq_create_publisher "invalid://address");
    (os_quiet, call_zmq_send_message 1 "test.topic" "test message");
    (os_quiet, call_zmq_send_message 9999 "test" "test");
    (os_quiet, call_zmq_create_subscriber "tcp://127.0.0.1:5558");
    (os_quiet, call_zmq_subscribe 2 "");
    (os_quiet, call_zmq_close 1);
    (os_quiet, call_zmq_close 9999);
    (os_quiet, call_zmq_close 1);
    (os_quiet, call_zmq_create_publisher "tcp://*:5559");
    (os_quiet, call_zmq_create_subscriber "tcp://127.0.0.1:5559");
    (os_quiet, call_zmq_subscribe 4 "");
    (os_busy, call_zmq_send_message 3 "unit.test" "{test:data}");
    (os_receiving 1 (21, frame_encode "unit.test" "{test:data}"),
     call_zmq_recv_message 4 1000);
    (os_no_data, call_zmq_recv_message 4 100);
    (os_quiet, call_zmq_close 3);
    (os_quiet, call_zmq_close 4);
    (os_quiet, call_zmq_close 2);
    (os_quiet, call_zmq_term);
    (os_quiet, call_zmq_create_publisher "tcp://*:5560");
    (os_quiet, call_zmq_close 5);
    (os_quiet, call_zmq_term) ].

End Fixture.

(** ** The DLL entry point *)

Definition DLL_PROCESS_DETACH : Z := 0.
Definition DLL_PROCESS_ATTACH : Z := 1.
Definition DLL_THREAD_ATTACH : Z := 2.
Definition DLL_THREAD_DETACH : Z := 3.

(** [DllMain]: [zmq_term] on process detach, nothing otherwise; always [TRUE]. *)
Definition DllMain (ul_reason_for_call : Z) : M bool :=
  if decide (ul_reason_for_call = DLL_PROCESS_ATTACH
             \/ ul_reason_for_call = DLL_THREAD_ATTACH
             \/ ul_reason_for_call = DLL_THREAD_DETACH) then ret true
  else if decide (ul_reason_for_call = DLL_PROCESS_DETACH) then zmq_term;; ret true
  else ret true.

(** ** Notions used to state further properties *)

(** The calls [ZMQSocket::Close] makes for a socket. *)
Definition close_log (sock : ZMQSocket) : list syscall :=
  (if decide (socket sock <> INVALID_SOCKET) then [sys_closesocket (socket sock)] else [])
  ++ (sys_closesocket <$> clients sock).

(** Every text the DLL passes to [SetLastError]. *)
Definition error_messages : list string :=
  [ "Invalid address format (must be tcp://...)"%string;
    "Invalid address format (missing port)"%string;
    "Invalid port number"%string;
    "WSAStartup failed"%string;
    "Failed to create socket"%string;
    "Invalid IP address"%string;
    "Failed to bind socket"%string;
    "Failed to listen on socket"%string;
    "Invalid handle"%string;
    "Failed to connect"%string;
    "Not a subscriber socket"%string ].

(** A socket as the creation functions build it and send maintains it: a
    valid endpoint, valid clients, and one of the two kinds. *)
Definition well_formed (sock : ZMQSocket) : Prop :=
  socket sock <> INVALID_SOCKET
  /\ (INVALID_SOCKET ∉ clients sock)
  /\ ((type sock = "PUB"%string /\ is_bound sock = true)
      \/ (type sock = "SUB"%string /\ is_bound sock = false)).

(** The socket [zmq_create_publisher] registers. *)
Definition new_publisher (os : OS) (address : string) : ZMQSocket :=
  {| socket := os_socket os; type := "PUB"; address := address;
     is_bound := true; clients := [] |}.

(** The socket [zmq_create_subscriber] registers. *)
Definition new_subscriber (os : OS) (address : string) : ZMQSocket :=
  {| socket := os_socket os; type := "SUB"; address := address;
     is_bound := false; clients := [] |}.

(** The globals after [sock] was registered under the counter. *)
Definition registered (sock : ZMQSocket) (g : Globals) : Globals :=
  with_sockets (<[g_next_handle g := sock]> (g_sockets g))
    (with_next_handle (int_wrap (g_next_handle g + 1)) g).

(** How one API call may change the registry and the counter. *)
Inductive registry_step (g g' : Globals) : Prop :=
| step_same :
    g_sockets g' = g_sockets g -> g_next_handle g' = g_next_handle g ->
    registry_step g g'
| step_register (sock : ZMQSocket) :
    well_formed sock ->
    g_sockets g' = <[g_next_handle g := sock]> (g_sockets g) ->
    g_next_handle g' = int_wrap (g_next_handle g + 1) ->
    registry_step g g'
| step_clients (handle : Z) (sock : ZMQSocket) (cs : list SOCKET) :
    g_sockets g !! handle = Some sock ->
    (forall c : SOCKET, c ∈ cs -> c ∈ clients sock \/ c <> INVALID_SOCKET) ->
    g_sockets g' = <[handle := set_clients cs sock]> (g_sockets g) ->
    g_next_handle g' = g_next_handle g ->
    registry_step g g'
| step_delete (handle : Z) :
    g_sockets g' = delete handle (g_sockets g) ->
    g_next_handle g' = g_next_handle g ->
    registry_step g g'
| step_clear :
    g_sockets g' = ∅ -> g_next_handle g' = g_next_handle g ->
    registry_step g g'.

(** The registry invariants: every registered handle lies between 1 and the
    counter, and every registered socket is well formed. *)
Definition handles_below_counter (g : Globals) : Prop :=
  forall (handle : Z) (sock : ZMQSocket),
    g_sockets g !! handle = Some sock -> 1 <= handle < g_next_handle g.

Definition sockets_well_formed (g : Globals) : Prop :=
  forall (handle : Z) (sock : ZMQSocket),
    g_sockets g !! handle = Some sock -> well_formed sock.

(** The effect of a call on the last-error text: untouched, or, when the call
    returns -1, one of the DLL's messages. *)
Definition error_effect (g : Globals) (r : Z * Globals * list syscall) : Prop :=
  g_last_error (globals_of r) = g_last_error g
  \/ (value_of r = -1 /\ g_last_error (globals_of r) ∈ error_messages).

(** Both creation bodies: a failure with a message, or a registration. *)
Definition creation_effect (g : Globals) (r : Z * Globals * list syscall) : Prop :=
  (exists msg : string, msg ∈ error_messages
     /\ value_of r = -1 /\ globals_of r = with_last_error msg g)
  \/ (exists sock : ZMQSocket, well_formed sock
        /\ value_of r = g_next_handle g /\ globals_of r = registered sock g).

(** ** Lemmas on the string operations *)

Lemma occurs_dec (c : ascii) (s : string) : {occurs c s} + {~ occurs c s}.
Proof.
  induction s as [|c' s IH]; simpl.
  - right; tauto.
  - destruct (decide (c' = c)); [left; tauto|].
    destruct IH; [left; tauto | right; tauto].
Defined.

Lemma find_none (c : ascii) (s : string) : find c s = None <-> ~ occurs c s.
Proof.
  induction s as [|c' s IH]; simpl; [tauto|].
  destruct (decide (c' = c)) as [->|Hne].
  - split; [discriminate | tauto].
  - destruct (find c s); simpl.
    + split; [discriminate|]. intros H. exfalso. apply H. right.
      destruct (occurs_dec c s) as [Ho|Ho]; [exact Ho|].
      apply IH in Ho. discriminate.
    + split; [|reflexivity]. intros _ [Heq|Ho]; [congruence|].
      apply IH in Ho; [exact Ho | reflexivity].
Qed.

Lemma find_app_first (c : ascii) (s rest : string) :
  ~ occurs c s -> find c (s +:+ String c rest) = Some (String.length s).
Proof.
  induction s as [|c' s IH]; simpl; intros Hno.
  - destruct (decide (c = c)); [reflexivity | congruence].
  - destruct (decide (c' = c)) as [->|Hne]; [tauto|].
    rewrite IH by tauto. reflexivity.
Qed.

Lemma find_split (c : ascii) (s : string) (pos : nat) :
  find c s = Some pos ->
  s = substr_to pos s +:+ String c (substr_from (pos + 1) s)
  /\ ~ occurs c (substr_to pos s).
Proof.
  revert pos. induction s as [|c' s IH]; simpl; intros pos Hf; [discriminate|].
  destruct (decide (c' = c)) as [->|Hne].
  - injection Hf as <-. simpl. tauto.
  - destruct (find c s) as [p|] eqn:E; simpl in Hf; [|discriminate].
    injection Hf as <-. simpl.
    destruct (IH p eq_refl) as [Heq Hno].
    split; [f_equal; exact Heq | tauto].
Qed.

Lemma substr_to_app (s rest : string) : substr_to (String.length s) (s +:+ rest) = s.
Proof. induction s as [|c s IH]; simpl; [destruct rest; reflexivity | f_equal; exact IH]. Qed.

Lemma substr_from_app (s rest : string) : substr_from (String.length s) (s +:+ rest) = rest.
Proof. induction s as [|c s IH]; simpl; [reflexivity | exact IH]. Qed.

Lemma substr_from_app_succ (s rest : string) (c : ascii) :
  substr_from (String.length s + 1) (s +:+ String c rest) = rest.
Proof.
  induction s as [|c' s IH]; simpl; [reflexivity | exact IH].
Qed.

Lemma c_str_id (s : string) : ~ occurs NUL s -> c_str s = s.
Proof.
  induction s as [|c s IH]; simpl; intros Hno; [reflexivity|].
  destruct (decide (c = Ascii.zero)) as [->|Hne]; [exfalso; apply Hno; left; reflexivity|].
  f_equal. apply IH. tauto.
Qed.

Lemma c_str_no_NUL (s : string) : ~ occurs NUL (c_str s).
Proof.
  induction s as [|c s IH]; simpl; [tauto|].
  destruct (decide (c = Ascii.zero)); simpl; [tauto|].
  intros [H|H]; [contradiction | exact (IH H)].
Qed.

Lemma app_assoc_string (a b c : string) : (a +:+ b) +:+ c = a +:+ (b +:+ c).
Proof. induction a as [|x a IH]; simpl; [reflexivity | f_equal; exact IH]. Qed.

(** ** The framing round trip *)

(** Decoding a frame gives back the topic once the topic has no NUL; the
    payload is whatever follows the first NUL. *)
Lemma frame_decode_encode (topicStr msgStr : string) :
  ~ occurs NUL topicStr ->
  frame_decode (frame_encode topicStr msgStr) = Some (topicStr, msgStr).
Proof.
  intros Hno. unfold frame_decode, frame_encode.
  rewrite app_assoc_string. simpl.
  rewrite (find_app_first NUL topicStr msgStr Hno).
  rewrite substr_to_app, substr_from_app_succ. reflexivity.
Qed.

(** A frame always holds a NUL: decoding one never fails. *)
Lemma frame_decode_total (topicStr msgStr : string) :
  frame_decode (frame_encode topicStr msgStr) <> None.
Proof.
  unfold frame_decode, frame_encode. rewrite app_assoc_string. simpl.
  destruct (find NUL (topicStr +:+ String NUL msgStr)) eqn:E; [discriminate|].
  apply find_none in E. exfalso. apply E. clear E.
  induction topicStr as [|c s IH]; simpl; tauto.
Qed.

(** C1. For every topic and payload without the separator byte, the
    subscriber's decode of the publisher's frame [topic ++ NUL ++ payload]
    is exactly the pair of the original topic and the original payload; and
    read as C strings, as lines 377-378 hand them on, the two are unchanged. *)
Theorem frame_roundtrip (topic payload : string) :
  ~ occurs NUL topic -> ~ occurs NUL payload ->
  frame_decode (frame_encode topic payload) = Some (topic, payload)
  /\ c_str topic = topic /\ c_str payload = payload.
Proof.
  intros Htopic Hpayload. split; [|split].
  - apply frame_decode_encode. exact Htopic.
  - apply c_str_id. exact Htopic.
  - apply c_str_id. exact Hpayload.
Qed.

Lemma frame_roundtrip_witness :
  frame_decode (frame_encode "unit.test" "{test:data}")
  = Some ("unit.test"%string, "{test:data}"%string).
Proof.
  apply (frame_roundtrip "unit.test" "{test:data}");
    intros H; simpl in H; repeat (destruct H as [H|H]; [discriminate H|]); exact H.
Defined.

(** ** The loops of [zmq_send_message] *)

Tactic Notation "unfold_M" :=
  unfold bind, ret, sys, modify, globals, SetLastError, value_of, globals_of, log_of.
Tactic Notation "unfold_M" "in" hyp(H) :=
  unfold bind, ret, sys, modify, globals, SetLastError, value_of, globals_of, log_of in H.

Lemma accept_loop_spec (listener : SOCKET) (answers cs : list SOCKET) (g : Globals) :
  accept_loop listener answers cs g
  = (cs ++ admitted answers, g, admission_log listener answers).
Proof.
  revert cs. induction answers as [|client answers IH]; intros cs; simpl.
  - unfold_M. simpl. rewrite app_nil_r. reflexivity.
  - unfold admission_log. unfold_M. simpl.
    destruct (decide (client = INVALID_SOCKET)) as [->|Hne]; simpl.
    + rewrite app_nil_r. reflexivity.
    + unfold_M in IH. rewrite IH. unfold admission_log.
      rewrite <- app_assoc. reflexivity.
Qed.

Lemma send_loop_spec (os : OS) (fullMsg : string) (cs : list SOCKET) :
  forall (k : nat) (disconnected : list SOCKET) (g : Globals),
  send_loop os fullMsg k cs disconnected g
  = (disconnected ++ marked_from os k cs, g, broadcast_from os fullMsg k cs).
Proof.
  induction cs as [|client cs IH]; intros k disconnected g; simpl.
  - unfold_M. rewrite app_nil_r. reflexivity.
  - destruct (decide (write_failed os k client)) as [Hw|Hw];
      unfold write_failed in Hw;
      destruct (os_send os k client) as [sent error]; simpl in Hw;
      unfold_M; unfold_M in IH; rewrite IH; simpl.
    + destruct Hw as [Hs He].
      rewrite (decide_True _ _ Hs), (decide_True _ _ He).
      rewrite <- app_assoc. reflexivity.
    + destruct (decide (sent = SOCKET_ERROR)) as [Hs|Hs]; [|reflexivity].
      destruct (decide (error <> WSAEWOULDBLOCK)) as [He|He]; [tauto | reflexivity].
Qed.

Lemma remove_erase_filter (disc : SOCKET) (rest cs : list SOCKET) :
  filter (fun c => c ∉ rest) (remove_erase disc cs) = filter (fun c => c ∉ disc :: rest) cs.
Proof.
  unfold remove_erase. induction cs as [|c cs IH]; [reflexivity|].
  rewrite !filter_cons.
  destruct (decide (c <> disc)) as [Hne|Heq].
  - rewrite filter_cons. destruct (decide (c ∉ rest)) as [Hr|Hr].
    + rewrite decide_True by (rewrite not_elem_of_cons; tauto). f_equal. exact IH.
    + rewrite decide_False by (rewrite not_elem_of_cons; tauto). exact IH.
  - rewrite decide_False; [exact IH|].
    rewrite not_elem_of_cons. intros [H _]. apply Heq. exact H.
Qed.

Lemma filter_none_marked (cs : list SOCKET) : filter (fun c => c ∉ @nil SOCKET) cs = cs.
Proof.
  induction cs as [|c cs IH]; [reflexivity|].
  rewrite filter_cons_True by apply not_elem_of_nil. f_equal. exact IH.
Qed.

Lemma remove_loop_spec (disconnected : list SOCKET) :
  forall (cs : list SOCKET) (g : Globals),
  remove_loop disconnected cs g
  = (filter (fun c => c ∉ disconnected) cs, g, sys_closesocket <$> disconnected).
Proof.
  induction disconnected as [|disc rest IH]; intros cs g; simpl.
  - unfold_M. rewrite filter_none_marked. reflexivity.
  - unfold_M. unfold_M in IH. rewrite IH. simpl.
    rewrite remove_erase_filter. reflexivity.
Qed.

Lemma alter_twice_insert (m : gmap Z ZMQSocket) (h : Z) (sock : ZMQSocket)
    (cs1 cs2 : list SOCKET) :
  m !! h = Some sock ->
  alter (set_clients cs2) h (alter (set_clients cs1) h m) = <[h := set_clients cs2 sock]> m.
Proof.
  intros Hm. apply map_eq. intros i.
  destruct (decide (h = i)) as [<-|Hne].
  - rewrite !lookup_alter_eq, lookup_insert_eq, Hm. reflexivity.
  - rewrite !lookup_alter_ne, lookup_insert_ne by exact Hne. reflexivity.
Qed.

(** On a registered handle, [zmq_send_message] returns 0, leaves the peers
    kept as the socket's client list, and issues exactly the admission, the
    broadcast and the clean-up calls, in this order. *)
Lemma zmq_send_message_registered (os : OS) (handle : Z) (topicStr msgStr : string)
    (g : Globals) (sock : ZMQSocket) :
  g_sockets g !! handle = Some sock ->
  zmq_send_message os handle topicStr msgStr g
  = (0,
     with_sockets (<[handle := set_clients (peers_kept os sock) sock]> (g_sockets g)) g,
     send_log os sock topicStr msgStr).
Proof.
  intros Hreg. unfold zmq_send_message, AcceptConnections, store_clients.
  unfold bind at 1. unfold globals at 1. cbv iota beta. rewrite Hreg.
  unfold bind. rewrite accept_loop_spec. unfold_M. cbv iota beta.
  rewrite send_loop_spec. rewrite remove_loop_spec. simpl.
  rewrite (alter_twice_insert _ _ sock) by exact Hreg.
  unfold send_log, peers_kept, marked_disconnected, peers_served.
  rewrite !app_nil_r. reflexivity.
Qed.

Lemma zmq_send_message_unregistered (os : OS) (handle : Z) (topicStr msgStr : string)
    (g : Globals) :
  g_sockets g !! handle = None ->
  zmq_send_message os handle topicStr msgStr g
  = (-1, with_last_error "Invalid handle" g, []).
Proof.
  intros Hreg. unfold zmq_send_message.
  unfold bind at 1. unfold globals at 1. cbv iota beta. rewrite Hreg.
  reflexivity.
Qed.

(** ** Send on registered and unregistered handles *)

Lemma elem_of_marked_from (os : OS) (c : SOCKET) (peers : list SOCKET) :
  forall k : nat,
  c ∈ marked_from os k peers
  <-> exists i : nat, peers !! i = Some c /\ write_failed os (k + i) c.
Proof.
  induction peers as [|p peers IH]; intros k; simpl.
  - split; [intros H; inversion H | intros (i & H & _); discriminate H].
  - assert (Hstep : c ∈ marked_from os (S k) peers
                    <-> exists i, (p :: peers) !! S i = Some c /\ write_failed os (k + S i) c).
    { rewrite IH. split; intros (i & Hi & Hw); exists i; split; try exact Hi;
        replace (k + S i)%nat with (S k + i)%nat in * by lia; exact Hw. }
    destruct (decide (write_failed os k p)) as [Hw|Hw].
    + rewrite elem_of_cons, Hstep. split.
      * intros [->|(i & Hi & Hwi)]; [exists O | exists (S i)]; [|tauto].
        rewrite Nat.add_0_r. split; [reflexivity | exact Hw].
      * intros ([|i] & Hi & Hwi); [left | right; exists i; tauto].
        simpl in Hi. congruence.
    + rewrite Hstep. split.
      * intros (i & Hi & Hwi). exists (S i). tauto.
      * intros ([|i] & Hi & Hwi); [|exists i; tauto].
        simpl in Hi. injection Hi as ->. rewrite Nat.add_0_r in Hwi. contradiction.
Qed.

Lemma broadcast_from_lookup (os : OS) (fullMsg : string) (peers : list SOCKET) :
  forall k i : nat,
  broadcast_from os fullMsg k peers !! i
  = (fun c => sys_send c fullMsg (Z.of_nat (String.length fullMsg)) (os_send os (k + i) c).1)
      <$> peers !! i.
Proof.
  induction peers as [|p peers IH]; intros k i; simpl; [reflexivity|].
  destruct i as [|i]; simpl.
  - rewrite Nat.add_0_r. reflexivity.
  - rewrite IH. replace (S k + i)%nat with (k + S i)%nat by lia. reflexivity.
Qed.

Lemma broadcast_from_length (os : OS) (fullMsg : string) (peers : list SOCKET) (k : nat) :
  length (broadcast_from os fullMsg k peers) = length peers.
Proof. revert k. induction peers as [|p peers IH]; intros k; simpl; [|rewrite IH]; reflexivity. Qed.

(** C2. On a registered handle [zmq_send_message] returns 0 whatever the
    operating system answers: with an empty peer list, and when the write
    to some or to every peer would block or fails.  It returns the failure
    value -1 exactly when the handle is not registered. *)
Theorem zmq_send_message_succeeds (os : OS) (handle : Z) (topic message : string)
    (g : Globals) :
  (is_Some (g_sockets g !! handle) <->
     value_of (zmq_send_message os handle topic message g) = 0)
  /\ (g_sockets g !! handle = None <->
        value_of (zmq_send_message os handle topic message g) = -1).
Proof.
  destruct (g_sockets g !! handle) as [sock|] eqn:Hreg.
  - rewrite (zmq_send_message_registered _ _ _ _ _ sock Hreg). unfold value_of. simpl.
    split; [split; intros _; [reflexivity | eexists; reflexivity]
           | split; intros H; discriminate H].
  - rewrite (zmq_send_message_unregistered _ _ _ _ _ Hreg). unfold value_of. simpl.
    split; [split; intros H; [destruct H as [x Hx]; discriminate Hx | discriminate H]
           | split; reflexivity].
Qed.

Example zmq_send_message_every_write_fails :
  zmq_send_message Fixture.os_all_reset 1 "unit.test" "data" Fixture.g_live
  = (0,
     with_sockets (<[1 := set_clients [] Fixture.pub_socket]> (g_sockets Fixture.g_live))
       Fixture.g_live,
     [sys_accept 100 INVALID_SOCKET;
      sys_send 200 (frame_encode "unit.test" "data") 14 (-1);
      sys_send 201 (frame_encode "unit.test" "data") 14 (-1);
      sys_send 202 (frame_encode "unit.test" "data") 14 (-1);
      sys_closesocket 200; sys_closesocket 201; sys_closesocket 202]).
Proof.
  rewrite (zmq_send_message_registered _ _ _ _ _ Fixture.pub_socket) by reflexivity.
  reflexivity.
Qed.

Example zmq_send_message_every_write_blocks :
  zmq_send_message Fixture.os_all_blocked 1 "unit.test" "data" Fixture.g_live
  = (0,
     with_sockets
       (<[1 := set_clients [200; 201; 202] Fixture.pub_socket]> (g_sockets Fixture.g_live))
       Fixture.g_live,
     [sys_accept 100 INVALID_SOCKET;
      sys_send 200 (frame_encode "unit.test" "data") 14 (-1);
      sys_send 201 (frame_encode "unit.test" "data") 14 (-1);
      sys_send 202 (frame_encode "unit.test" "data") 14 (-1)]).
Proof.
  rewrite (zmq_send_message_registered _ _ _ _ _ Fixture.pub_socket) by reflexivity.
  reflexivity.
Qed.

(** C6. A send on a registered handle first admits the pending connections,
    each set non-blocking and appended at the end of the peer list; then it
    writes the frame once to every peer in list order; a peer is marked
    exactly when one of its writes fails otherwise than by would-block; the
    marked peers are closed, and the client list left is the list served
    without the marked peers, in the same order.  Peers are told apart by
    their [SOCKET] value, as [std::remove] does; when the values served are
    pairwise distinct, a peer is kept exactly when its own write succeeded
    or would block. *)
Theorem zmq_send_message_admits_then_broadcasts (os : OS) (handle : Z)
    (topic message : string) (g : Globals) (sock : ZMQSocket) :
  g_sockets g !! handle = Some sock ->
  zmq_send_message os handle topic message g
  = (0,
     with_sockets (<[handle := set_clients (peers_kept os sock) sock]> (g_sockets g)) g,
     admission_log (socket sock) (os_accept os)
     ++ broadcast_from os (frame_encode topic message) 0 (peers_served os sock)
     ++ (sys_closesocket <$> marked_disconnected os sock))
  /\ peers_served os sock = clients sock ++ admitted (os_accept os)
  /\ (forall (i : nat) (c : SOCKET), peers_served os sock !! i = Some c ->
        broadcast_from os (frame_encode topic message) 0 (peers_served os sock) !! i
        = Some (sys_send c (frame_encode topic message)
                  (Z.of_nat (String.length (frame_encode topic message)))
                  (os_send os i c).1))
  /\ length (broadcast_from os (frame_encode topic message) 0 (peers_served os sock))
     = length (peers_served os sock)
  /\ (forall c : SOCKET, c ∈ marked_disconnected os sock
        <-> exists i : nat, peers_served os sock !! i = Some c
              /\ (os_send os i c).1 = SOCKET_ERROR
              /\ (os_send os i c).2 <> WSAEWOULDBLOCK)
  /\ (forall c : SOCKET, c ∈ peers_kept os sock
        <-> c ∈ peers_served os sock /\ c ∉ marked_disconnected os sock)
  /\ peers_kept os sock `sublist_of` peers_served os sock
  /\ (NoDup (peers_served os sock) ->
      forall (i : nat) (c : SOCKET), peers_served os sock !! i = Some c ->
        (c ∈ peers_kept os sock
         <-> ~ ((os_send os i c).1 = SOCKET_ERROR
                /\ (os_send os i c).2 <> WSAEWOULDBLOCK))).
Proof.
  intros Hreg. split; [exact (zmq_send_message_registered _ _ _ _ _ _ Hreg)|].
  split; [reflexivity|].
  split.
  { intros i c Hi. rewrite broadcast_from_lookup, Hi. reflexivity. }
  split; [apply broadcast_from_length|].
  split.
  { intros c. unfold marked_disconnected. rewrite elem_of_marked_from.
    unfold write_failed. simpl. tauto. }
  split.
  { intros c. unfold peers_kept. rewrite list_elem_of_filter. tauto. }
  split; [unfold peers_kept; apply sublist_filter|].
  intros Hnd i c Hi. unfold peers_kept. rewrite list_elem_of_filter.
  unfold marked_disconnected. rewrite elem_of_marked_from. unfold write_failed. simpl.
  split.
  - intros [Hnot _] Hfail. apply Hnot. exists i. tauto.
  - intros Hok. split; [|apply list_elem_of_lookup; exists i; exact Hi].
    intros (j & Hj & Hfail). rewrite (NoDup_lookup _ i j c Hnd Hi Hj) in Hok. tauto.
Qed.

(** C7. On a handle that is not registered [zmq_send_message] returns -1,
    issues no Winsock call and changes nothing but the last-error text: the
    registry, with every client list and endpoint in it, is as before. *)
Theorem zmq_send_message_unknown_handle (os : OS) (handle : Z) (topic message : string)
    (g : Globals) :
  g_sockets g !! handle = None ->
  value_of (zmq_send_message os handle topic message g) = -1
  /\ log_of (zmq_send_message os handle topic message g) = []
  /\ g_sockets (globals_of (zmq_send_message os handle topic message g)) = g_sockets g
  /\ g_initialized (globals_of (zmq_send_message os handle topic message g)) = g_initialized g
  /\ g_next_handle (globals_of (zmq_send_message os handle topic message g)) = g_next_handle g
  /\ g_last_error (globals_of (zmq_send_message os handle topic message g))
     = "Invalid handle"%string.
Proof.
  intros Hreg. rewrite (zmq_send_message_unregistered _ _ _ _ _ Hreg).
  unfold value_of, log_of, globals_of. simpl. tauto.
Qed.

Lemma zmq_send_message_admits_then_broadcasts_witness :
  zmq_send_message Fixture.os_busy 1 "unit.test" "data" Fixture.g_live
  = (0,
     with_sockets
       (<[1 := set_clients [201; 202; 203; 204] Fixture.pub_socket]>
          (g_sockets Fixture.g_live)) Fixture.g_live,
     [sys_accept 100 203; sys_ioctlsocket_FIONBIO 203;
      sys_accept 100 204; sys_ioctlsocket_FIONBIO 204;
      sys_accept 100 INVALID_SOCKET;
      sys_send 200 (frame_encode "unit.test" "data") 14 (-1);
      sys_send 201 (frame_encode "unit.test" "data") 14 (-1);
      sys_send 202 (frame_encode "unit.test" "data") 14 14;
      sys_send 203 (frame_encode "unit.test" "data") 14 14;
      sys_send 204 (frame_encode "unit.test" "data") 14 14;
      sys_closesocket 200]).
Proof.
  destruct (zmq_send_message_admits_then_broadcasts Fixture.os_busy 1 "unit.test" "data"
              Fixture.g_live Fixture.pub_socket) as [Heq _].
  - vm_compute. reflexivity.
  - rewrite Heq. reflexivity.
Defined.

Lemma zmq_send_message_unknown_handle_witness :
  value_of (zmq_send_message Fixture.os_busy 9999 "test" "test" Fixture.g_live) = -1
  /\ g_sockets (globals_of (zmq_send_message Fixture.os_busy 9999 "test" "test" Fixture.g_live))
     = g_sockets Fixture.g_live.
Proof.
  destruct (zmq_send_message_unknown_handle Fixture.os_busy 9999 "test" "test" Fixture.g_live)
    as (Hv & _ & Hs & _).
  - vm_compute. reflexivity.
  - split; [exact Hv | exact Hs].
Defined.

(** ** Receive *)

Section Receive.

Variables (os : OS) (handle : Z) (timeout_ms : Z) (g : Globals) (sock : ZMQSocket).
Hypothesis registered : g_sockets g !! handle = Some sock.

Let select_call : syscall :=
  sys_select (socket sock) (Z.quot timeout_ms 1000) (Z.rem timeout_ms 1000 * 1000)
    (os_select os).
Let recv_call : syscall := sys_recv (socket sock) 4096 (os_recv os).1.
Let data : string := substr_to (Z.to_nat (os_recv os).1) (os_recv os).2.

Lemma zmq_recv_message_not_subscriber :
  type sock <> "SUB"%string ->
  zmq_recv_message os handle timeout_ms g
  = ((-1, None), with_last_error "Not a subscriber socket" g, []).
Proof.
  intros Hty. unfold zmq_recv_message.
  unfold bind at 1. unfold globals at 1. cbv iota beta. rewrite registered.
  rewrite (decide_True _ _ Hty). reflexivity.
Qed.

Lemma zmq_recv_message_no_data :
  type sock = "SUB"%string -> os_select os <= 0 ->
  zmq_recv_message os handle timeout_ms g = ((-1, None), g, [select_call]).
Proof.
  intros Hty Hsel. unfold zmq_recv_message.
  unfold bind at 1. unfold globals at 1. cbv iota beta. rewrite registered.
  rewrite decide_False by (intros H; exact (H Hty)).
  unfold_M. rewrite (decide_True _ _ Hsel). reflexivity.
Qed.

Lemma zmq_recv_message_read_failed :
  type sock = "SUB"%string -> 0 < os_select os -> (os_recv os).1 <= 0 ->
  zmq_recv_message os handle timeout_ms g = ((-1, None), g, [select_call; recv_call]).
Proof.
  intros Hty Hsel Hrecv. unfold zmq_recv_message.
  unfold bind at 1. unfold globals at 1. cbv iota beta. rewrite registered.
  rewrite decide_False by (intros H; exact (H Hty)).
  unfold_M. rewrite decide_False by lia.
  subst recv_call. destruct (os_recv os) as [received buffer]. simpl in *.
  rewrite (decide_True _ _ Hrecv). reflexivity.
Qed.

Lemma zmq_recv_message_decoded :
  type sock = "SUB"%string -> 0 < os_select os -> 0 < (os_recv os).1 ->
  zmq_recv_message os handle timeout_ms g
  = (match frame_decode data with
     | None => (-1, None)
     | Some (topicStr, msgStr) => (0, Some (c_str topicStr, c_str msgStr))
     end, g, [select_call; recv_call]).
Proof.
  intros Hty Hsel Hrecv. unfold zmq_recv_message.
  unfold bind at 1. unfold globals at 1. cbv iota beta. rewrite registered.
  rewrite decide_False by (intros H; exact (H Hty)).
  unfold_M. rewrite decide_False by lia.
  subst recv_call data. destruct (os_recv os) as [received buffer]. simpl in *.
  rewrite decide_False by lia.
  destruct (frame_decode (substr_to (Z.to_nat received) buffer)) as [[topicStr msgStr]|];
    reflexivity.
Qed.

End Receive.

(** C9. On a registered handle whose socket is not of type "SUB",
    [zmq_recv_message] returns -1 at once: no [select], no [recv], the
    last-error text set.  [zmq_send_message] has no such check: on every
    registered handle, whatever its type, it returns 0 after running the
    admission on the socket's own endpoint and the broadcast. *)
Theorem zmq_recv_message_checks_type_send_does_not (os : OS) (handle : Z)
    (timeout_ms : Z) (topic message : string) (g : Globals) (sock : ZMQSocket) :
  g_sockets g !! handle = Some sock ->
  (type sock <> "SUB"%string ->
     zmq_recv_message os handle timeout_ms g
     = ((-1, None), with_last_error "Not a subscriber socket" g, []))
  /\ zmq_send_message os handle topic message g
     = (0,
        with_sockets (<[handle := set_clients (peers_kept os sock) sock]> (g_sockets g)) g,
        admission_log (socket sock) (os_accept os)
        ++ broadcast_from os (frame_encode topic message) 0 (peers_served os sock)
        ++ (sys_closesocket <$> marked_disconnected os sock)).
Proof.
  intros Hreg. split.
  - intros Hty. exact (zmq_recv_message_not_subscriber os handle timeout_ms g sock Hreg Hty).
  - exact (zmq_send_message_registered os handle topic message g sock Hreg).
Qed.

(** On the subscriber handle 2 a send runs the admission on the subscriber's
    own endpoint and returns 0. *)
Lemma zmq_recv_message_checks_type_send_does_not_witness :
  log_of (zmq_send_message Fixture.os_quiet 2 "t" "m" Fixture.g_live)
  = [sys_accept 300 INVALID_SOCKET]
  /\ value_of (zmq_send_message Fixture.os_quiet 2 "t" "m" Fixture.g_live) = 0.
Proof.
  destruct (zmq_recv_message_checks_type_send_does_not Fixture.os_quiet 2 100 "t" "m"
              Fixture.g_live Fixture.sub_socket) as [_ Heq].
  - vm_compute. reflexivity.
  - rewrite Heq. split; reflexivity.
Defined.

Example zmq_recv_message_on_publisher :
  zmq_recv_message Fixture.os_peer_closed 1 100 Fixture.g_live
  = ((-1, None), with_last_error "Not a subscriber socket" Fixture.g_live, []).
Proof. vm_compute. reflexivity. Qed.

(** C3, as the code has it.  On a registered subscriber handle, a call during
    which nothing becomes readable returns -1 after the [select] alone, with
    the globals, the last-error text included, and the output buffers as they
    were.  A call whose read is empty or fails, or whose bytes hold no
    separator, leaves the caller with the very same observation: -1, no
    output, the last-error text of before. *)
Theorem zmq_recv_message_timeout_as_failure (os os' : OS) (handle : Z)
    (timeout_ms timeout_ms' : Z) (g : Globals) (sock : ZMQSocket) :
  g_sockets g !! handle = Some sock ->
  type sock = "SUB"%string ->
  os_select os <= 0 ->
  0 < os_select os' ->
  (os_recv os').1 <= 0
  \/ frame_decode (substr_to (Z.to_nat (os_recv os').1) (os_recv os').2) = None ->
  zmq_recv_message os handle timeout_ms g
  = ((-1, None), g,
     [sys_select (socket sock) (Z.quot timeout_ms 1000) (Z.rem timeout_ms 1000 * 1000)
        (os_select os)])
  /\ recv_observation (zmq_recv_message os handle timeout_ms g)
     = (-1, None, c_str (g_last_error g))
  /\ recv_observation (zmq_recv_message os' handle timeout_ms' g)
     = recv_observation (zmq_recv_message os handle timeout_ms g).
Proof.
  intros Hreg Hty Hsel Hsel' Hfail.
  rewrite (zmq_recv_message_no_data os handle timeout_ms g sock Hreg Hty Hsel).
  split; [reflexivity|]. split; [reflexivity|].
  destruct (decide ((os_recv os').1 <= 0)) as [Hr|Hr].
  - rewrite (zmq_recv_message_read_failed os' handle timeout_ms' g sock Hreg Hty Hsel' Hr).
    reflexivity.
  - destruct Hfail as [Hr'|Hdec]; [contradiction|].
    rewrite (zmq_recv_message_decoded os' handle timeout_ms' g sock Hreg Hty Hsel')
      by lia.
    rewrite Hdec. reflexivity.
Qed.

Lemma zmq_recv_message_timeout_as_failure_witness :
  recv_observation (zmq_recv_message Fixture.os_no_separator 2 1000 Fixture.g_live)
  = recv_observation (zmq_recv_message Fixture.os_no_data 2 100 Fixture.g_live).
Proof.
  apply (zmq_recv_message_timeout_as_failure Fixture.os_no_data Fixture.os_no_separator
           2 100 1000 Fixture.g_live Fixture.sub_socket).
  - vm_compute. reflexivity.
  - reflexivity.
  - vm_compute. discriminate.
  - vm_compute. reflexivity.
  - right. vm_compute. reflexivity.
Defined.

(** C3 as the specification words it fails: with subscriber 2 registered, the
    call that times out, the call that meets a closed connection and the call
    that reads bytes without a separator give the caller one and the same
    observation. *)
Lemma zmq_recv_message_timeout_not_distinct :
  recv_observation (zmq_recv_message Fixture.os_no_data 2 100 Fixture.g_live)
  = (-1, None, EmptyString)
  /\ recv_observation (zmq_recv_message Fixture.os_peer_closed 2 100 Fixture.g_live)
     = recv_observation (zmq_recv_message Fixture.os_no_data 2 100 Fixture.g_live)
  /\ recv_observation (zmq_recv_message Fixture.os_no_separator 2 100 Fixture.g_live)
     = recv_observation (zmq_recv_message Fixture.os_no_data 2 100 Fixture.g_live).
Proof. vm_compute. repeat split; reflexivity. Qed.

(** ** The address parser inside the creation functions *)

(** [ParseAddress] reads the globals nowhere: it either accepts, changing
    nothing, or rejects, leaving one of its three messages. *)
Lemma ParseAddress_cases (addr : string) :
  (exists hp : string * Z, forall g : Globals, ParseAddress addr g = (Some hp, g, []))
  \/ (exists msg : string, msg ∈ parse_errors
        /\ forall g : Globals, ParseAddress addr g = (None, with_last_error msg g, [])).
Proof.
  unfold ParseAddress, parse_errors.
  destruct (decide (substr_to 6 addr <> "tcp://"%string)) as [Hscheme|Hscheme].
  { right. eexists. split; [|intros g; reflexivity]. set_solver. }
  destruct (find ":" (substr_from 6 addr)) as [colonPos|].
  2:{ right. eexists. split; [|intros g; reflexivity]. set_solver. }
  destruct (stoi (substr_from (colonPos + 1) (substr_from 6 addr))) as [port|].
  - left. eexists. intros g. reflexivity.
  - right. eexists. split; [|intros g; reflexivity]. set_solver.
Qed.

Lemma ParseAddress_rejected (addr : string) (g0 : Globals) :
  value_of (ParseAddress addr g0) = None ->
  exists msg : string, msg ∈ parse_errors
    /\ forall g : Globals, ParseAddress addr g = (None, with_last_error msg g, []).
Proof.
  intros Hrej. destruct (ParseAddress_cases addr) as [[hp Hacc]|Hmsg]; [|exact Hmsg].
  rewrite Hacc in Hrej. discriminate Hrej.
Qed.

Lemma parse_errors_nonempty (msg : string) :
  msg ∈ parse_errors -> c_str msg <> EmptyString.
Proof.
  unfold parse_errors. rewrite !elem_of_cons, elem_of_nil.
  intros [->|[->|[->|[]]]]; vm_compute; discriminate.
Qed.

Lemma init_on_demand (os : OS) (locked : M Z) (g : Globals) :
  (g0 <- globals;;
   init_failed <- (if g_initialized g0 then ret false
                   else r <- zmq_init os;; ret (bool_decide (r <> 0)));;
   if init_failed : bool then ret (-1) else locked) g
  = after_init os locked g.
Proof.
  unfold after_init, zmq_init. unfold_M.
  destruct (g_initialized g) eqn:Hinit.
  - destruct (locked g) as [[r g'] log]. reflexivity.
  - rewrite Hinit. destruct (decide (os_WSAStartup os <> 0)) as [Hwsa|Hwsa]; simpl.
    + reflexivity.
    + destruct (locked (with_initialized true g)) as [[r g'] log]. reflexivity.
Qed.

Lemma zmq_create_publisher_after_init (os : OS) (address : string) (g : Globals) :
  zmq_create_publisher os address g
  = after_init os (zmq_create_publisher_locked os address) g.
Proof. apply init_on_demand. Qed.

Lemma zmq_create_subscriber_after_init (os : OS) (address : string) (g : Globals) :
  zmq_create_subscriber os address g
  = after_init os (zmq_create_subscriber_locked os address) g.
Proof. apply init_on_demand. Qed.

Lemma zmq_create_publisher_locked_rejected (os : OS) (address msg : string) (g : Globals) :
  (forall g' : Globals, ParseAddress address g' = (None, with_last_error msg g', [])) ->
  zmq_create_publisher_locked os address g = (-1, with_last_error msg g, []).
Proof.
  intros Hparse. unfold zmq_create_publisher_locked, bind. rewrite Hparse. reflexivity.
Qed.

(** C8. When the address parser rejects the address, [zmq_create_publisher]
    returns -1 and the text that [zmq_get_last_error] gives after the call is
    not empty. *)
Theorem zmq_create_publisher_rejected_address (os : OS) (address : string)
    (g0 g : Globals) :
  value_of (ParseAddress address g0) = None ->
  value_of (zmq_create_publisher os address g) = -1
  /\ value_of (zmq_get_last_error (globals_of (zmq_create_publisher os address g)))
     <> EmptyString.
Proof.
  intros Hrej. destruct (ParseAddress_rejected address g0 Hrej) as (msg & Hmsg & Hparse).
  pose proof (parse_errors_nonempty msg Hmsg) as Hne.
  rewrite zmq_create_publisher_after_init. unfold after_init.
  rewrite !(zmq_create_publisher_locked_rejected os address msg) by exact Hparse.
  destruct (g_initialized g); [|destruct (decide (os_WSAStartup os <> 0))];
    unfold_M; simpl; (split; [reflexivity|]); try exact Hne.
  discriminate.
Qed.

Lemma zmq_create_publisher_rejected_address_witness :
  value_of (zmq_create_publisher Fixture.os_quiet "invalid://address" initial_globals) = -1
  /\ value_of (zmq_get_last_error
                 (globals_of (zmq_create_publisher Fixture.os_quiet "invalid://address"
                                initial_globals)))
     <> EmptyString.
Proof.
  apply (zmq_create_publisher_rejected_address Fixture.os_quiet "invalid://address"
           initial_globals initial_globals).
  vm_compute. reflexivity.
Defined.

(** ** Initialisation on demand *)

Lemma zmq_init_uninitialized (os : OS) (g : Globals) :
  g_initialized g = false ->
  zmq_init os g
  = if decide (os_WSAStartup os <> 0) then
      (-1, with_last_error "WSAStartup failed" g, [sys_WSAStartup (os_WSAStartup os)])
    else (0, with_initialized true g, [sys_WSAStartup (os_WSAStartup os)]).
Proof.
  intros Hinit. unfold zmq_init. unfold_M. rewrite Hinit.
  destruct (decide (os_WSAStartup os <> 0)); reflexivity.
Qed.

Lemma after_init_uninitialized (os : OS) (locked : M Z) (g : Globals) :
  g_initialized g = false ->
  (os_WSAStartup os <> 0 -> after_init os locked g = zmq_init os g)
  /\ (os_WSAStartup os = 0 ->
        after_init os locked g = (zmq_init os;; after_init os locked) g).
Proof.
  intros Hinit. unfold bind. rewrite (zmq_init_uninitialized os g Hinit).
  unfold after_init. rewrite Hinit. split; intros Hwsa.
  - rewrite !(decide_True _ _ Hwsa). reflexivity.
  - rewrite !decide_False by (intros H; exact (H Hwsa)). simpl.
    destruct (locked (with_initialized true g)) as [[r g'] log]. reflexivity.
Qed.

Example zmq_create_publisher_first_call :
  zmq_create_publisher Fixture.os_quiet "tcp://*:5558" initial_globals
  = (1,
     {| g_initialized := true; g_next_handle := 2;
        g_sockets := <[1 := {| socket := 400; type := "PUB"; address := "tcp://*:5558";
                               is_bound := true; clients := [] |}]> ∅;
        g_last_error := EmptyString |},
     [sys_WSAStartup 0; sys_socket 400; sys_setsockopt_SO_REUSEADDR 400;
      sys_ioctlsocket_FIONBIO 400; sys_bind 400 16777343 5558 0; sys_listen 400 0]).
Proof. vm_compute. reflexivity. Qed.

Example zmq_create_publisher_without_winsock :
  zmq_create_publisher Fixture.os_no_winsock "tcp://*:5558" initial_globals
  = (-1, with_last_error "WSAStartup failed" initial_globals, [sys_WSAStartup 10091]).
Proof. vm_compute. reflexivity. Qed.

(** ** The handle counter along a run *)

Ltac creation_branches :=
  unfold_M; unfold register_socket; unfold_M;
  repeat first
    [ progress simpl
    | match goal with
      | |- context [decide ?P] => destruct (decide P)
      | |- context [StringToAddr ?os ?h] => destruct (StringToAddr os h)
      end ];
  first [ left; split; reflexivity | right; split; reflexivity ].

Lemma zmq_create_publisher_locked_outcome (os : OS) (address : string) (g : Globals) :
  creation_outcome g (zmq_create_publisher_locked os address g).
Proof.
  unfold creation_outcome, zmq_create_publisher_locked, bind.
  destruct (ParseAddress_cases address) as [[[host port] H]|(msg & _ & H)]; rewrite H.
  - creation_branches.
  - left. split; reflexivity.
Qed.

Lemma zmq_create_subscriber_locked_outcome (os : OS) (address : string) (g : Globals) :
  creation_outcome g (zmq_create_subscriber_locked os address g).
Proof.
  unfold creation_outcome, zmq_create_subscriber_locked, bind.
  destruct (ParseAddress_cases address) as [[[host port] H]|(msg & _ & H)]; rewrite H.
  - creation_branches.
  - left. split; reflexivity.
Qed.

Lemma after_init_outcome (os : OS) (locked : M Z) (g : Globals) :
  (forall g' : Globals, creation_outcome g' (locked g')) ->
  creation_outcome g (after_init os locked g).
Proof.
  intros Hlocked. unfold after_init.
  destruct (g_initialized g); [apply Hlocked|].
  destruct (decide (os_WSAStartup os <> 0)); [left; split; reflexivity|].
  exact (Hlocked (with_initialized true g)).
Qed.

Lemma close_clients_globals (cs : list SOCKET) (g : Globals) :
  globals_of (close_clients cs g) = g.
Proof.
  induction cs as [|c cs IH]; [reflexivity|].
  simpl. unfold_M. unfold_M in IH.
  destruct (close_clients cs g) as [[u g'] log]. exact IH.
Qed.

Lemma Close_globals (sock : ZMQSocket) (g : Globals) : globals_of (Close sock g) = g.
Proof.
  unfold Close. unfold_M.
  pose proof (close_clients_globals (clients sock) g) as Hcs. unfold_M in Hcs.
  destruct (decide (socket sock <> INVALID_SOCKET));
    destruct (close_clients (clients sock) g) as [[u g'] log]; exact Hcs.
Qed.

Lemma delete_all_globals (entries : list (Z * ZMQSocket)) (g : Globals) :
  globals_of (delete_all entries g) = g.
Proof.
  induction entries as [|entry entries IH]; [reflexivity|].
  simpl. unfold bind.
  pose proof (Close_globals entry.2 g) as HC. unfold globals_of in HC.
  destruct (Close entry.2 g) as [[u g1] log1]. simpl in HC. subst g1.
  unfold globals_of in IH.
  destruct (delete_all entries g) as [[u' g2] log2]. exact IH.
Qed.

(** Every call other than a creation leaves the counter alone. *)
Lemma perform_next_handle (os : OS) (c : api_call) (g : Globals) :
  match c with
  | call_zmq_create_publisher _ | call_zmq_create_subscriber _ =>
      creation_outcome g (perform os c g)
  | _ => g_next_handle (globals_of (perform os c g)) = g_next_handle g
  end.
Proof.
  destruct c as [| |address|address|handle topic|handle topic message|handle timeout_ms|handle];
    simpl.
  - unfold zmq_init. unfold_M. destruct (g_initialized g); [reflexivity|].
    destruct (decide (os_WSAStartup os <> 0)); reflexivity.
  - unfold zmq_term. unfold_M. destruct (g_initialized g); [|reflexivity]. simpl.
    pose proof (delete_all_globals (in_key_order (g_sockets g)) g) as HD.
    unfold globals_of in HD.
    destruct (delete_all (in_key_order (g_sockets g)) g) as [[u g1] log1].
    simpl in HD. subst g1. reflexivity.
  - rewrite zmq_create_publisher_after_init.
    apply after_init_outcome, zmq_create_publisher_locked_outcome.
  - rewrite zmq_create_subscriber_after_init.
    apply after_init_outcome, zmq_create_subscriber_locked_outcome.
  - reflexivity.
  - destruct (g_sockets g !! handle) as [sock|] eqn:Hreg.
    + rewrite (zmq_send_message_registered _ _ _ _ _ sock Hreg). reflexivity.
    + rewrite (zmq_send_message_unregistered _ _ _ _ _ Hreg). reflexivity.
  - unfold zmq_recv_message. unfold_M.
    destruct (g_sockets g !! handle) as [sock|]; [|reflexivity].
    destruct (decide (type sock <> "SUB"%string)); [reflexivity|].
    destruct (decide (os_select os <= 0)); [reflexivity|].
    destruct (os_recv os) as [received buffer].
    destruct (decide (received <= 0)); [reflexivity|].
    destruct (frame_decode (substr_to (Z.to_nat received) buffer)) as [[t m]|]; reflexivity.
  - unfold zmq_close. unfold_M.
    destruct (g_sockets g !! handle) as [sock|]; [|reflexivity].
    pose proof (Close_globals sock g) as HC. unfold globals_of in HC.
    destruct (Close sock g) as [[u g1] log1]. simpl in HC. subst g1. reflexivity.
Qed.

Lemma int_wrap_succ (n : Z) : 1 <= n < INT_MAX -> int_wrap (n + 1) = n + 1.
Proof.
  unfold INT_MAX, int_wrap. intros Hn.
  rewrite Z.mod_small by lia. lia.
Qed.

(** From globals whose counter is at least 1 and far enough from [INT_MAX],
    the handles created by a run count up from the counter, and the counter
    ends right above them. *)
Lemma run_handles (calls : list (OS * api_call)) :
  forall g : Globals,
  1 <= g_next_handle g ->
  g_next_handle g + Z.of_nat (length calls) <= INT_MAX ->
  omap handle_created (run calls g).1
    = seqZ (g_next_handle g) (g_next_handle (run calls g).2 - g_next_handle g)
  /\ g_next_handle g <= g_next_handle (run calls g).2
     <= g_next_handle g + Z.of_nat (length calls).
Proof.
  induction calls as [|[os c] calls IH]; intros g Hlo Hhi.
  - simpl. rewrite Z.sub_diag. split; [reflexivity | lia].
  - simpl. simpl length in Hhi.
    pose proof (perform_next_handle os c g) as Hstep.
    destruct (perform os c g) as [[r g1] log1] eqn:Hperf.
    assert (Hcases :
      (handle_created (c, r) = None /\ g_next_handle g1 = g_next_handle g)
      \/ (handle_created (c, r) = Some (g_next_handle g)
          /\ g_next_handle g1 = g_next_handle g + 1)).
    { unfold handle_created, creation_outcome, value_of, globals_of in *. simpl in *.
      destruct c; try (left; split; [reflexivity | exact Hstep]);
        (destruct Hstep as [[-> Hg]|[-> Hg]];
         [left; split; [reflexivity | exact Hg]
         |right; rewrite decide_False by lia; split; [reflexivity|];
          rewrite Hg; apply int_wrap_succ; lia]). }
    specialize (IH g1).
    destruct (run calls g1) as [rs g2]. simpl in *.
    destruct Hcases as [[-> Hg1]|[-> Hg1]]; rewrite Hg1 in IH;
      (destruct IH as [IHeq IHle]; [lia | lia |]).
    + split; [exact IHeq | lia].
    + split; [|lia].
      rewrite (seqZ_cons (g_next_handle g)) by lia.
      f_equal. etransitivity; [exact IHeq|]. f_equal; lia.
Qed.

(** C5. Along every run from the initial globals, with creations, closes,
    terminations and re-initialisations in any order, the handles given out
    by the successful creations are 1, 2, 3, ... in this order: positive,
    increasing by one, and pairwise distinct.  The run is shorter than
    [INT_MAX] calls, the range in which [g_next_handle++] does not overflow
    the [int]. *)
Theorem handles_count_up_from_one (calls : list (OS * api_call)) :
  Z.of_nat (length calls) < INT_MAX ->
  (forall (i : nat) (h : Z), handles_created calls !! i = Some h -> h = Z.of_nat i + 1)
  /\ (forall h : Z, h ∈ handles_created calls -> 1 <= h)
  /\ NoDup (handles_created calls).
Proof.
  intros Hlen. unfold handles_created.
  destruct (run_handles calls initial_globals) as [Heq _];
    [simpl; lia | unfold INT_MAX in *; simpl; lia |].
  rewrite Heq. change (g_next_handle initial_globals) with 1.
  split; [|split].
  - intros i h Hi. apply lookup_seqZ in Hi. lia.
  - intros h Hh. apply elem_of_seqZ in Hh. lia.
  - apply NoDup_seqZ.
Qed.

(** The run of the test harness returns what the harness expects of each
    call: handles 1 to 5, -1 for the bad address, the unknown handle, the
    repeated close and the receive that times out, 0 elsewhere. *)
Example harness_run_results :
  snd <$> (run Fixture.harness_calls initial_globals).1
  = [0; 0; 1; -1; 0; -1; 2; 0; 0; -1; -1; 3; 4; 0; 0; 0; -1; 0; 0; 0; 0; 5; 0; 0].
Proof. vm_compute. reflexivity. Qed.

Lemma handles_count_up_from_one_witness :
  handles_created Fixture.harness_calls = [1; 2; 3; 4; 5]
  /\ NoDup (handles_created Fixture.harness_calls).
Proof.
  split; [vm_compute; reflexivity|].
  apply (handles_count_up_from_one Fixture.harness_calls).
  vm_compute. reflexivity.
Defined.

(** ** What the address parser accepts *)

(** A digit character at the head of a scan is read as its value. *)
Ltac digit_known :=
  match goal with
  | |- context [digit_of ?c] =>
      change (digit_of c) with (Some (Z.of_N (N_of_ascii c) - 48))
  end;
  cbv iota beta.

Lemma fst_let (X : Z * nat) : (let '(v, n) := X in (v, S n)).1 = X.1.
Proof. destruct X; reflexivity. Qed.

Lemma scan_value_acc (d : Decimal.uint) :
  forall acc : positive,
  (scan_digits (Z.pos acc) (NilEmpty.string_of_uint d)).1 = Z.pos (Pos.of_uint_acc d acc).
Proof.
  induction d as [|d IH|d IH|d IH|d IH|d IH|d IH|d IH|d IH|d IH|d IH]; intros acc;
    [reflexivity|..];
    cbn [NilEmpty.string_of_uint scan_digits Pos.of_uint_acc];
    digit_known; rewrite fst_let, <- IH; f_equal; f_equal; simpl; lia.
Qed.
Lemma scan_value (d : Decimal.uint) :
  (scan_digits 0 (NilEmpty.string_of_uint d)).1 = Z.of_N (Pos.of_uint d).
Proof.
  induction d as [|d IH|d IH|d IH|d IH|d IH|d IH|d IH|d IH|d IH|d IH];
    [reflexivity|..];
    cbn [NilEmpty.string_of_uint scan_digits Pos.of_uint];
    digit_known; rewrite fst_let; [exact IH|..];
    cbn [Z.of_N]; rewrite <- scan_value_acc; reflexivity.
Qed.

Lemma stoi_digit_head (c : ascii) (s : string) :
  digit_of c <> None ->
  stoi (String c s)
  = if decide (INT_MIN <= (scan_digits 0 (String c s)).1 <= INT_MAX)
    then Some (scan_digits 0 (String c s)).1 else None.
Proof.
  intros Hd.
  destruct c as [[] [] [] [] [] [] [] []]; try (exfalso; apply Hd; reflexivity);
    unfold stoi; cbn [skip_spaces];
    match goal with |- context [isspace ?c] => change (isspace c) with false end;
    cbv iota; cbn [scan_digits]; digit_known;
    destruct (scan_digits _ s) as [v n]; cbn [fst];
    rewrite (decide_False (P := S n = O)) by discriminate; reflexivity.
Qed.

Lemma substr_to_from (n : nat) (s : string) : s = substr_to n s +:+ substr_from n s.
Proof.
  revert s. induction n as [|n IH]; intros s; [reflexivity|].
  destruct s as [|c s]; [reflexivity|]. simpl. f_equal. apply IH.
Qed.

Lemma decimal_head (n : Z) :
  exists (c : ascii) (s : string), decimal n = String c s /\ digit_of c <> None.
Proof.
  unfold decimal.
  assert (Hnn : N.to_uint (Z.to_N n) <> Decimal.Nil).
  { destruct (Z.to_N n) as [|p]; [discriminate|]. apply Unsigned.to_uint_nonnil. }
  destruct (N.to_uint (Z.to_N n)); [contradiction|..];
    eexists; eexists; (split; [reflexivity | discriminate]).
Qed.

Lemma stoi_decimal (n : Z) : 0 <= n <= INT_MAX -> stoi (decimal n) = Some n.
Proof.
  intros Hn. destruct (decimal_head n) as (c & s & Heq & Hd).
  rewrite Heq, (stoi_digit_head c s Hd), <- Heq. unfold decimal.
  rewrite scan_value.
  change (Pos.of_uint (N.to_uint (Z.to_N n))) with (N.of_uint (N.to_uint (Z.to_N n))).
  rewrite DecimalN.Unsigned.of_to, Z2N.id by lia.
  apply decide_True. unfold INT_MIN, INT_MAX in *. lia.
Qed.

Lemma occurs_skip_spaces (c : ascii) (s : string) : occurs c (skip_spaces s) -> occurs c s.
Proof.
  induction s as [|c' s IH]; simpl; [tauto|].
  destruct (isspace c'); simpl; tauto.
Qed.

Lemma scan_digits_none (acc : Z) (s : string) :
  (forall c, occurs c s -> digit_of c = None) -> scan_digits acc s = (acc, O).
Proof.
  destruct s as [|c s]; [reflexivity|]. intros H. simpl.
  rewrite (H c) by (left; reflexivity). reflexivity.
Qed.

Lemma stoi_no_digit (s : string) :
  (forall c, occurs c s -> digit_of c = None) -> stoi s = None.
Proof.
  intros Hnd. unfold stoi.
  assert (Hs : forall c, occurs c (skip_spaces s) -> digit_of c = None).
  { intros c Hc. apply Hnd, occurs_skip_spaces, Hc. }
  destruct (skip_spaces s) as [|c s1].
  - reflexivity.
  - assert (H1 : forall c', occurs c' s1 -> digit_of c' = None).
    { intros c' Hc'. apply Hs. right. exact Hc'. }
    assert (H0 : digit_of c = None) by (apply Hs; left; reflexivity).
    assert (E1 : scan_digits 0 s1 = (0, O)) by (apply scan_digits_none, H1).
    assert (E0 : scan_digits 0 (String c s1) = (0, O)) by (simpl; rewrite H0; reflexivity).
    destruct c as [[] [] [] [] [] [] [] []]; rewrite ?E1, ?E0; reflexivity.
Qed.

Lemma ParseAddress_value (addr : string) (g : Globals) :
  value_of (ParseAddress addr g)
  = if decide (substr_to 6 addr <> "tcp://"%string) then None
    else match find ":" (substr_from 6 addr) with
         | None => None
         | Some colonPos =>
             match stoi (substr_from (colonPos + 1) (substr_from 6 addr)) with
             | None => None
             | Some port => Some (wildcard (substr_to colonPos (substr_from 6 addr)), port)
             end
         end.
Proof.
  unfold ParseAddress, wildcard.
  destruct (decide (substr_to 6 addr <> "tcp://"%string)); [reflexivity|].
  destruct (find ":" (substr_from 6 addr)) as [colonPos|]; [|reflexivity].
  destruct (stoi _); reflexivity.
Qed.

Lemma ParseAddress_form (host rest : string) (g : Globals) :
  ~ occurs ":" host ->
  value_of (ParseAddress ("tcp://" +:+ host +:+ ":" +:+ rest) g)
  = match stoi rest with None => None | Some port => Some (wildcard host, port) end.
Proof.
  intros Hhost. rewrite ParseAddress_value.
  change (substr_to 6 ("tcp://" +:+ host +:+ ":" +:+ rest)) with "tcp://"%string.
  rewrite decide_False by (intros H; apply H; reflexivity).
  change (substr_from 6 ("tcp://" +:+ host +:+ ":" +:+ rest)) with (host +:+ String ":" rest).
  rewrite (find_app_first ":" host rest Hhost).
  rewrite substr_to_app, substr_from_app_succ. reflexivity.
Qed.

Lemma ParseAddress_accepted (addr host' : string) (port : Z) (g : Globals) :
  value_of (ParseAddress addr g) = Some (host', port)
  <-> exists host rest : string,
        addr = "tcp://" +:+ host +:+ ":" +:+ rest
        /\ ~ occurs ":" host /\ stoi rest = Some port /\ host' = wildcard host.
Proof.
  split.
  - rewrite ParseAddress_value.
    destruct (decide (substr_to 6 addr <> "tcp://"%string)) as [|Hscheme]; [discriminate|].
    destruct (find ":" (substr_from 6 addr)) as [colonPos|] eqn:Hfind; [|discriminate].
    destruct (stoi _) as [p|] eqn:Hstoi; [|discriminate].
    intros [= <- <-].
    destruct (find_split _ _ _ Hfind) as [Hsplit Hno].
    exists (substr_to colonPos (substr_from 6 addr)),
           (substr_from (colonPos + 1) (substr_from 6 addr)).
    split; [|tauto].
    rewrite (substr_to_from 6 addr) at 1.
    destruct (decide (substr_to 6 addr = "tcp://"%string)) as [->|Hne]; [|tauto].
    rewrite Hsplit at 1. reflexivity.
  - intros (host & rest & -> & Hhost & Hstoi & ->).
    rewrite (ParseAddress_form host rest g Hhost), Hstoi. reflexivity.
Qed.

(** C4, as the code has it.  [ParseAddress] accepts exactly the strings
    [tcp://<host>:<rest>] in which [<host>] has no colon and [std::stoi]
    reads a number that fits [int] at the head of [<rest>]; the port is that
    number, and no range is imposed on it.  So every port from 0 to [INT_MAX]
    written in decimal is accepted.  A string that does not start with
    [tcp://], has no colon after it, or has a port text without any digit is
    rejected. *)
Theorem ParseAddress_accepts (g : Globals) :
  (forall (addr host' : string) (port : Z),
     value_of (ParseAddress addr g) = Some (host', port)
     <-> exists host rest : string,
           addr = "tcp://" +:+ host +:+ ":" +:+ rest
           /\ ~ occurs ":" host /\ stoi rest = Some port /\ host' = wildcard host)
  /\ (forall (host : string) (port : Z),
        ~ occurs ":" host -> 0 <= port <= INT_MAX ->
        value_of (ParseAddress ("tcp://" +:+ host +:+ ":" +:+ decimal port) g)
        = Some (wildcard host, port))
  /\ (forall addr : string,
        (forall rest : string, addr <> "tcp://" +:+ rest) ->
        value_of (ParseAddress addr g) = None)
  /\ (forall hostPort : string,
        ~ occurs ":" hostPort ->
        value_of (ParseAddress ("tcp://" +:+ hostPort) g) = None)
  /\ (forall host rest : string,
        ~ occurs ":" host ->
        (forall c : ascii, occurs c rest -> digit_of c = None) ->
        value_of (ParseAddress ("tcp://" +:+ host +:+ ":" +:+ rest) g) = None).
Proof.
  split; [intros addr host' port; apply ParseAddress_accepted|].
  split.
  { intros host port Hhost Hport.
    rewrite (ParseAddress_form host (decimal port) g Hhost), (stoi_decimal port Hport).
    reflexivity. }
  split.
  { intros addr Hscheme. rewrite ParseAddress_value.
    destruct (decide (substr_to 6 addr <> "tcp://"%string)) as [|Heq]; [reflexivity|].
    exfalso. apply (Hscheme (substr_from 6 addr)).
    rewrite (substr_to_from 6 addr) at 1.
    destruct (decide (substr_to 6 addr = "tcp://"%string)) as [->|Hne]; [reflexivity | tauto]. }
  split.
  { intros hostPort Hcolon. rewrite ParseAddress_value.
    change (substr_to 6 ("tcp://" +:+ hostPort)) with "tcp://"%string.
    rewrite decide_False by (intros H; apply H; reflexivity).
    change (substr_from 6 ("tcp://" +:+ hostPort)) with hostPort.
    apply find_none in Hcolon. rewrite Hcolon. reflexivity. }
  intros host rest Hhost Hrest.
  rewrite (ParseAddress_form host rest g Hhost), (stoi_no_digit rest Hrest). reflexivity.
Qed.

(** C4 as the specification words it fails: the ports 0 and 99999, outside
    [1, 65535], are accepted, and so is a port followed by other text. *)
Lemma ParseAddress_accepts_any_port :
  value_of (ParseAddress "tcp://*:0" initial_globals) = Some ("0.0.0.0"%string, 0)
  /\ value_of (ParseAddress "tcp://*:99999" initial_globals) = Some ("0.0.0.0"%string, 99999)
  /\ value_of (ParseAddress "tcp://127.0.0.1:5559abc" initial_globals)
     = Some ("127.0.0.1"%string, 5559).
Proof. vm_compute. repeat split; reflexivity. Qed.

Example ParseAddress_rejects :
  value_of (ParseAddress "invalid://address" initial_globals) = None
  /\ value_of (ParseAddress "tcp://localhost" initial_globals) = None
  /\ value_of (ParseAddress "tcp://*:port" initial_globals) = None
  /\ value_of (ParseAddress "tcp://*:99999999999" initial_globals) = None.
Proof. vm_compute. repeat split; reflexivity. Qed.

(** ** A published frame, received *)

Lemma substr_to_length (s : string) : substr_to (String.length s) s = s.
Proof. induction s as [|c s IH]; simpl; [reflexivity | f_equal; exact IH]. Qed.

(** X1. When the one read of a subscriber returns exactly the frame a publisher
    wrote for a topic and a payload without NUL, [zmq_recv_message] returns 0
    and hands out that topic and that payload, byte for byte.  (A single read
    holds at most 4096 bytes, so longer frames never arrive this way.) *)
Theorem published_frame_is_received (os : OS) (handle : Z) (timeout_ms : Z)
    (g : Globals) (sock : ZMQSocket) (topic payload : string) :
  g_sockets g !! handle = Some sock ->
  type sock = "SUB"%string ->
  ~ occurs NUL topic -> ~ occurs NUL payload ->
  0 < os_select os ->
  os_recv os = (Z.of_nat (String.length (frame_encode topic payload)),
                frame_encode topic payload) ->
  zmq_recv_message os handle timeout_ms g
  = ((0, Some (topic, payload)), g,
     [sys_select (socket sock) (Z.quot timeout_ms 1000) (Z.rem timeout_ms 1000 * 1000)
        (os_select os);
      sys_recv (socket sock) 4096 (Z.of_nat (String.length (frame_encode topic payload)))]).
Proof.
  intros Hreg Hty Htopic Hpayload Hsel Hrecv.
  assert (Hlen : 0 < Z.of_nat (String.length (frame_encode topic payload))).
  { unfold frame_encode. rewrite app_assoc_string.
    destruct topic; simpl; lia. }
  rewrite (zmq_recv_message_decoded os handle timeout_ms g sock Hreg Hty Hsel)
    by (rewrite Hrecv; exact Hlen).
  rewrite Hrecv. simpl fst. simpl snd.
  rewrite Nat2Z.id, substr_to_length, (frame_decode_encode topic payload Htopic).
  rewrite (c_str_id topic Htopic), (c_str_id payload Hpayload). reflexivity.
Qed.

Lemma published_frame_is_received_witness :
  value_of (zmq_recv_message
              (Fixture.os_receiving 1 (21, frame_encode "unit.test" "{test:data}"))
              2 1000 Fixture.g_live)
  = (0, Some ("unit.test"%string, "{test:data}"%string)).
Proof.
  rewrite (published_frame_is_received
             (Fixture.os_receiving 1 (21, frame_encode "unit.test" "{test:data}"))
             2 1000 Fixture.g_live Fixture.sub_socket "unit.test" "{test:data}").
  - reflexivity.
  - vm_compute. reflexivity.
  - reflexivity.
  - intros H; simpl in H; repeat (destruct H as [H|H]; [discriminate H|]); exact H.
  - intros H; simpl in H; repeat (destruct H as [H|H]; [discriminate H|]); exact H.
  - vm_compute. reflexivity.
  - reflexivity.
Defined.

(** * Further properties of the DLL *)

(** ** Creation: registration or clean-up *)

Lemma parse_errors_are_messages (msg : string) : msg ∈ parse_errors -> msg ∈ error_messages.
Proof.
  unfold parse_errors. rewrite !elem_of_cons, elem_of_nil.
  intros [->|[->|[->|[]]]]; unfold error_messages;
    repeat first [apply list_elem_of_here | apply list_elem_of_further].
Qed.

Ltac known_message :=
  unfold error_messages; repeat first [apply list_elem_of_here | apply list_elem_of_further].

Lemma zmq_create_publisher_locked_result (os : OS) (address : string) (g : Globals) :
  (exists (host : string) (port sin_addr : Z),
      value_of (ParseAddress address g) = Some (host, port)
      /\ os_socket os <> INVALID_SOCKET /\ StringToAddr os host = Some sin_addr
      /\ os_bind os <> SOCKET_ERROR /\ os_listen os <> SOCKET_ERROR
      /\ zmq_create_publisher_locked os address g
         = (g_next_handle g, registered (new_publisher os address) g,
            [sys_socket (os_socket os); sys_setsockopt_SO_REUSEADDR (os_socket os);
             sys_ioctlsocket_FIONBIO (os_socket os);
             sys_bind (os_socket os) sin_addr (u_short port) (os_bind os);
             sys_listen (os_socket os) (os_listen os)]))
  \/ (exists (msg : string) (log : list syscall),
        msg ∈ error_messages
        /\ zmq_create_publisher_locked os address g = (-1, with_last_error msg g, log)
        /\ (log = []
            \/ (os_socket os = INVALID_SOCKET /\ log = [sys_socket INVALID_SOCKET])
            \/ exists mid : list syscall,
                 log = sys_socket (os_socket os) :: mid ++ [sys_closesocket (os_socket os)])).
Proof.
  unfold zmq_create_publisher_locked, bind.
  destruct (ParseAddress_cases address) as [[[host port] H]|(msg & Hmsg & H)]; rewrite !H.
  2:{ right. exists msg, []. split; [apply parse_errors_are_messages, Hmsg|]. split; [reflexivity|]. left. reflexivity. }
  unfold value_of. cbn [fst].
  unfold_M. unfold register_socket. unfold_M.
  destruct (decide (os_socket os = INVALID_SOCKET)) as [Hs|Hs].
  { right. eexists _, _. split; [|split; [reflexivity|]]; [known_message|]. right. left. rewrite Hs. split; reflexivity. }
  destruct (StringToAddr os host) as [sin_addr|] eqn:Haddr.
  2:{ right. eexists _, _. split; [|split; [reflexivity|]]; [known_message|]. right. right.
      exists [sys_setsockopt_SO_REUSEADDR (os_socket os); sys_ioctlsocket_FIONBIO (os_socket os)]. reflexivity. }
  destruct (decide (os_bind os = SOCKET_ERROR)) as [Hb|Hb].
  { right. eexists _, _. split; [|split; [reflexivity|]]; [known_message|]. right. right.
    eexists [_; _; _]. reflexivity. }
  destruct (decide (os_listen os = SOCKET_ERROR)) as [Hl|Hl].
  { right. eexists _, _. split; [|split; [reflexivity|]]; [known_message|]. right. right.
    eexists [_; _; _; _]. reflexivity. }
  left. exists host, port, sin_addr. repeat (split; [assumption || reflexivity|]). reflexivity.
Qed.

Lemma zmq_create_subscriber_locked_result (os : OS) (address : string) (g : Globals) :
  (exists (host : string) (port sin_addr : Z),
      value_of (ParseAddress address g) = Some (host, port)
      /\ os_socket os <> INVALID_SOCKET
      /\ StringToAddr os (if decide (host = "localhost"%string) then "127.0.0.1"%string else host)
         = Some sin_addr
      /\ os_connect os <> SOCKET_ERROR
      /\ zmq_create_subscriber_locked os address g
         = (g_next_handle g, registered (new_subscriber os address) g,
            [sys_socket (os_socket os);
             sys_connect (os_socket os) sin_addr (u_short port) (os_connect os);
             sys_ioctlsocket_FIONBIO (os_socket os)]))
  \/ (exists (msg : string) (log : list syscall),
        msg ∈ error_messages
        /\ zmq_create_subscriber_locked os address g = (-1, with_last_error msg g, log)
        /\ (log = []
            \/ (os_socket os = INVALID_SOCKET /\ log = [sys_socket INVALID_SOCKET])
            \/ exists mid : list syscall,
                 log = sys_socket (os_socket os) :: mid ++ [sys_closesocket (os_socket os)])).
Proof.
  unfold zmq_create_subscriber_locked, bind.
  destruct (ParseAddress_cases address) as [[[host port] H]|(msg & Hmsg & H)]; rewrite !H.
  2:{ right. exists msg, []. split; [apply parse_errors_are_messages, Hmsg|].
      split; [reflexivity|]. left. reflexivity. }
  unfold value_of. cbn [fst].
  unfold_M. unfold register_socket. unfold_M.
  destruct (decide (os_socket os = INVALID_SOCKET)) as [Hs|Hs].
  { right. eexists _, _. split; [|split; [reflexivity|]]; [known_message|].
    right. left. rewrite Hs. split; reflexivity. }
  destruct (StringToAddr os _) as [sin_addr|] eqn:Haddr.
  2:{ right. eexists _, _. split; [|split; [reflexivity|]]; [known_message|].
      right. right. exists []. reflexivity. }
  destruct (decide (os_connect os = SOCKET_ERROR)) as [Hc|Hc].
  { right. eexists _, _. split; [|split; [reflexivity|]]; [known_message|].
    right. right. eexists [_]. reflexivity. }
  left. exists host, port, sin_addr. repeat (split; [assumption || reflexivity|]). reflexivity.
Qed.

Lemma after_init_initialized (os : OS) (locked : M Z) (g : Globals) :
  g_initialized g = true -> after_init os locked g = locked g.
Proof. intros H. unfold after_init. rewrite H. reflexivity. Qed.

(** ** Close, term *)

Lemma close_clients_spec (cs : list SOCKET) (g : Globals) :
  close_clients cs g = (tt, g, sys_closesocket <$> cs).
Proof.
  induction cs as [|c cs IH]; [reflexivity|].
  simpl. unfold_M. unfold_M in IH. rewrite IH. reflexivity.
Qed.

Lemma Close_spec (sock : ZMQSocket) (g : Globals) : Close sock g = (tt, g, close_log sock).
Proof.
  unfold Close, close_log, bind. 
  destruct (decide (socket sock <> INVALID_SOCKET)); unfold_M;
    rewrite close_clients_spec; reflexivity.
Qed.

Lemma delete_all_spec (entries : list (Z * ZMQSocket)) (g : Globals) :
  delete_all entries g = (tt, g, flat_map (fun entry => close_log entry.2) entries).
Proof.
  induction entries as [|entry entries IH]; [reflexivity|].
  simpl. unfold bind. rewrite Close_spec, IH. reflexivity.
Qed.

Lemma zmq_term_initialized (g : Globals) :
  g_initialized g = true ->
  zmq_term g
  = (tt, with_initialized false (with_sockets ∅ g),
     flat_map (fun entry => close_log entry.2) (in_key_order (g_sockets g))
     ++ [sys_WSACleanup]).
Proof.
  intros Hinit. unfold zmq_term. unfold_M. rewrite Hinit. simpl.
  rewrite delete_all_spec. reflexivity.
Qed.

Lemma zmq_term_uninitialized (g : Globals) :
  g_initialized g = false -> zmq_term g = (tt, g, []).
Proof. intros Hinit. unfold zmq_term. unfold_M. rewrite Hinit. reflexivity. Qed.

Lemma zmq_close_registered (handle : Z) (g : Globals) (sock : ZMQSocket) :
  g_sockets g !! handle = Some sock ->
  zmq_close handle g = (0, with_sockets (delete handle (g_sockets g)) g, close_log sock).
Proof.
  intros Hreg. unfold zmq_close. unfold bind at 1. unfold globals at 1. cbv iota beta.
  rewrite Hreg. unfold bind. rewrite Close_spec. unfold_M. simpl.
  rewrite app_nil_r. reflexivity.
Qed.

Lemma zmq_close_unregistered (handle : Z) (g : Globals) :
  g_sockets g !! handle = None -> zmq_close handle g = (-1, g, []).
Proof. intros Hreg. unfold zmq_close. unfold_M. rewrite Hreg. reflexivity. Qed.

Lemma in_key_order_elem (m : gmap Z ZMQSocket) (handle : Z) (sock : ZMQSocket) :
  (handle, sock) ∈ in_key_order m <-> m !! handle = Some sock.
Proof.
  unfold in_key_order. rewrite merge_sort_Permutation. apply elem_of_map_to_list.
Qed.

Lemma closesocket_in_close_log (s : SOCKET) (sock : ZMQSocket) :
  sys_closesocket s ∈ close_log sock
  <-> (s = socket sock /\ s <> INVALID_SOCKET) \/ s ∈ clients sock.
Proof.
  unfold close_log. rewrite elem_of_app, list_elem_of_fmap.
  destruct (decide (socket sock <> INVALID_SOCKET)) as [Hv|Hv].
  - rewrite list_elem_of_singleton. split.
    + intros [[= ->]|(c & [= ->] & Hc)]; [left; tauto | right; exact Hc].
    + intros [[-> _]|Hc]; [left; reflexivity | right; exists s; tauto].
  - rewrite elem_of_nil. split.
    + intros [[]|(c & [= ->] & Hc)]. right; exact Hc.
    + intros [[-> Hs]|Hc]; [contradiction | right; exists s; tauto].
Qed.

Lemma close_log_only_closes (e : syscall) (sock : ZMQSocket) :
  e ∈ close_log sock -> exists s : SOCKET, e = sys_closesocket s.
Proof.
  unfold close_log. rewrite elem_of_app, list_elem_of_fmap.
  destruct (decide (socket sock <> INVALID_SOCKET)).
  - rewrite list_elem_of_singleton. intros [->|(c & -> & _)]; eexists; reflexivity.
  - rewrite elem_of_nil. intros [[]|(c & -> & _)]. eexists; reflexivity.
Qed.

(** ** What one call does to the registry and to the last-error text *)

Lemma admitted_valid (answers : list SOCKET) (c : SOCKET) :
  c ∈ admitted answers -> c <> INVALID_SOCKET.
Proof.
  induction answers as [|a answers IH]; simpl; [intros H; inversion H|].
  destruct (decide (a = INVALID_SOCKET)); [intros H; inversion H|].
  rewrite elem_of_cons. intros [->|H]; [assumption | exact (IH H)].
Qed.

Lemma peers_kept_origin (os : OS) (sock : ZMQSocket) (c : SOCKET) :
  c ∈ peers_kept os sock -> c ∈ clients sock \/ c <> INVALID_SOCKET.
Proof.
  unfold peers_kept, peers_served. rewrite list_elem_of_filter, elem_of_app.
  intros [_ [H|H]]; [left; exact H | right; exact (admitted_valid _ _ H)].
Qed.

Lemma new_publisher_well_formed (os : OS) (address : string) :
  os_socket os <> INVALID_SOCKET -> well_formed (new_publisher os address).
Proof.
  intros Hs. unfold well_formed, new_publisher. simpl.
  split; [exact Hs|]. split; [apply not_elem_of_nil|]. left. split; reflexivity.
Qed.

Lemma new_subscriber_well_formed (os : OS) (address : string) :
  os_socket os <> INVALID_SOCKET -> well_formed (new_subscriber os address).
Proof.
  intros Hs. unfold well_formed, new_subscriber. simpl.
  split; [exact Hs|]. split; [apply not_elem_of_nil|]. right. split; reflexivity.
Qed.

Lemma zmq_create_publisher_locked_effect (os : OS) (address : string) (g : Globals) :
  creation_effect g (zmq_create_publisher_locked os address g).
Proof.
  destruct (zmq_create_publisher_locked_result os address g)
    as [(host & port & sin_addr & _ & Hs & _ & _ & _ & ->)|(msg & log & Hmsg & -> & _)].
  - right. exists (new_publisher os address).
    split; [apply new_publisher_well_formed, Hs|]. split; reflexivity.
  - left. exists msg. split; [exact Hmsg|]. split; reflexivity.
Qed.

Lemma zmq_create_subscriber_locked_effect (os : OS) (address : string) (g : Globals) :
  creation_effect g (zmq_create_subscriber_locked os address g).
Proof.
  destruct (zmq_create_subscriber_locked_result os address g)
    as [(host & port & sin_addr & _ & Hs & _ & _ & ->)|(msg & log & Hmsg & -> & _)].
  - right. exists (new_subscriber os address).
    split; [apply new_subscriber_well_formed, Hs|]. split; reflexivity.
  - left. exists msg. split; [exact Hmsg|]. split; reflexivity.
Qed.

Lemma creation_effect_step (g0 g : Globals) (r : Z * Globals * list syscall) :
  g_sockets g0 = g_sockets g -> g_next_handle g0 = g_next_handle g ->
  g_last_error g0 = g_last_error g ->
  creation_effect g0 r ->
  registry_step g (globals_of r) /\ error_effect g r.
Proof.
  intros Hs Hn He [(msg & Hmsg & Hv & Hg)|(sock & Hwf & Hv & Hg)]; rewrite Hg.
  - split; [apply step_same; simpl; assumption|].
    right. split; [exact Hv|]. rewrite Hg. exact Hmsg.
  - split.
    + apply (step_register _ _ sock Hwf); simpl; rewrite <- ?Hs, <- ?Hn; reflexivity.
    + left. rewrite Hg. simpl. exact He.
Qed.

Lemma after_init_effect (os : OS) (locked : M Z) (g : Globals) :
  (forall g0 : Globals, creation_effect g0 (locked g0)) ->
  registry_step g (globals_of (after_init os locked g))
  /\ error_effect g (after_init os locked g).
Proof.
  intros Hlocked. unfold after_init.
  destruct (g_initialized g).
  - apply (creation_effect_step g g); try reflexivity. apply Hlocked.
  - destruct (decide (os_WSAStartup os <> 0)).
    + split; [apply step_same; reflexivity|].
      right. split; [reflexivity|]. unfold globals_of. simpl. known_message.
    + pose proof (Hlocked (with_initialized true g)) as H.
      apply (creation_effect_step (with_initialized true g) g) in H; try reflexivity.
      exact H.
Qed.

Lemma perform_effect (os : OS) (c : api_call) (g : Globals) :
  registry_step g (globals_of (perform os c g)) /\ error_effect g (perform os c g).
Proof.
  destruct c as [| |address|address|handle topic|handle topic message|handle timeout_ms|handle];
    simpl.
  - unfold zmq_init. unfold_M. destruct (g_initialized g).
    + split; [apply step_same; reflexivity | left; reflexivity].
    + destruct (decide (os_WSAStartup os <> 0)); simpl.
      * split; [apply step_same; reflexivity|]. right. split; [reflexivity|].
        unfold globals_of. simpl. known_message.
      * split; [apply step_same; reflexivity | left; reflexivity].
  - unfold bind. destruct (g_initialized g) eqn:Hinit.
    + rewrite (zmq_term_initialized g Hinit). unfold_M. simpl.
      split; [apply step_clear; reflexivity | left; reflexivity].
    + rewrite (zmq_term_uninitialized g Hinit). unfold_M. simpl.
      split; [apply step_same; reflexivity | left; reflexivity].
  - rewrite zmq_create_publisher_after_init.
    apply after_init_effect. intros g0. apply zmq_create_publisher_locked_effect.
  - rewrite zmq_create_subscriber_after_init.
    apply after_init_effect. intros g0. apply zmq_create_subscriber_locked_effect.
  - split; [apply step_same; reflexivity | left; reflexivity].
  - destruct (g_sockets g !! handle) as [sock|] eqn:Hreg.
    + rewrite (zmq_send_message_registered _ _ _ _ _ sock Hreg).
      split; [|left; reflexivity].
      apply (step_clients _ _ handle sock (peers_kept os sock) Hreg);
        [apply peers_kept_origin | reflexivity | reflexivity].
    + rewrite (zmq_send_message_unregistered _ _ _ _ _ Hreg).
      split; [apply step_same; reflexivity|]. right. split; [reflexivity|].
      unfold globals_of. simpl. known_message.
  - unfold zmq_recv_message. unfold_M.
    destruct (g_sockets g !! handle) as [sock|].
    2:{ split; [apply step_same; reflexivity|]. right. split; [reflexivity|].
        simpl. known_message. }
    destruct (decide (type sock <> "SUB"%string)).
    { split; [apply step_same; reflexivity|]. right. split; [reflexivity|].
      simpl. known_message. }
    destruct (decide (os_select os <= 0));
      [split; [apply step_same; reflexivity | left; reflexivity]|].
    destruct (os_recv os) as [received buffer].
    destruct (decide (received <= 0));
      [split; [apply step_same; reflexivity | left; reflexivity]|].
    destruct (frame_decode (substr_to (Z.to_nat received) buffer)) as [[t m]|];
      (split; [apply step_same; reflexivity | left; reflexivity]).
  - destruct (g_sockets g !! handle) as [sock|] eqn:Hreg.
    + rewrite (zmq_close_registered handle g sock Hreg).
      split; [apply (step_delete _ _ handle); reflexivity | left; reflexivity].
    + rewrite (zmq_close_unregistered handle g Hreg).
      split; [apply step_same; reflexivity | left; reflexivity].
Qed.

(** ** Invariants along a run *)

Lemma run_cons (os : OS) (c : api_call) (calls : list (OS * api_call)) (g : Globals) :
  (run ((os, c) :: calls) g).2 = (run calls (globals_of (perform os c g))).2.
Proof.
  simpl. unfold globals_of.
  destruct (perform os c g) as [[r g1] log1]. simpl.
  destruct (run calls g1) as [rs g2]. reflexivity.
Qed.

(** An invariant indexed by the number of calls still to come. *)
Lemma run_invariant (P : nat -> Globals -> Prop) :
  (forall (n : nat) (os : OS) (c : api_call) (g : Globals),
      P (S n) g -> P n (globals_of (perform os c g))) ->
  forall (calls : list (OS * api_call)) (g : Globals),
  P (length calls) g -> P O (run calls g).2.
Proof.
  intros Hstep calls. induction calls as [|[os c] calls IH]; intros g HP.
  - exact HP.
  - rewrite run_cons. apply IH, Hstep, HP.
Qed.

Lemma registry_step_counter (g g' : Globals) :
  registry_step g g' -> 1 <= g_next_handle g < INT_MAX ->
  g_next_handle g <= g_next_handle g' <= g_next_handle g + 1.
Proof.
  intros Hstep Hn.
  destruct Hstep as [_ ->|sock _ _ ->|handle sock cs _ _ _ ->|handle _ ->| _ ->];
    rewrite ?int_wrap_succ by exact Hn; lia.
Qed.

Lemma registry_step_handles (g g' : Globals) :
  registry_step g g' -> 1 <= g_next_handle g < INT_MAX ->
  handles_below_counter g -> handles_below_counter g'.
Proof.
  intros Hstep Hn Hinv h s.
  destruct Hstep as [-> ->|sock _ -> ->|handle sock cs Hreg _ -> ->|handle -> ->| -> ->].
  - apply Hinv.
  - rewrite int_wrap_succ by exact Hn. rewrite lookup_insert.
    destruct (decide (g_next_handle g = h)) as [<-|Hne]; [intros _; lia|].
    intros Hh. specialize (Hinv h s Hh). lia.
  - rewrite lookup_insert. destruct (decide (handle = h)) as [<-|Hne].
    + intros _. exact (Hinv handle sock Hreg).
    + apply Hinv.
  - rewrite lookup_delete. destruct (decide (handle = h)); [discriminate|]. apply Hinv.
  - rewrite lookup_empty. discriminate.
Qed.

Lemma set_clients_well_formed (sock : ZMQSocket) (cs : list SOCKET) :
  well_formed sock ->
  (forall c : SOCKET, c ∈ cs -> c ∈ clients sock \/ c <> INVALID_SOCKET) ->
  well_formed (set_clients cs sock).
Proof.
  intros (Hs & Hc & Hk) Hcs. unfold well_formed, set_clients. simpl.
  split; [exact Hs|]. split; [|exact Hk].
  intros Hin. destruct (Hcs _ Hin) as [H|H]; [exact (Hc H) | exact (H eq_refl)].
Qed.

Lemma registry_step_well_formed (g g' : Globals) :
  registry_step g g' -> sockets_well_formed g -> sockets_well_formed g'.
Proof.
  intros Hstep Hinv h s.
  destruct Hstep as [-> _|sock Hwf -> _|handle sock cs Hreg Hcs -> _|handle -> _| -> _].
  - apply Hinv.
  - rewrite lookup_insert. destruct (decide (g_next_handle g = h)).
    + intros [= <-]. exact Hwf.
    + apply Hinv.
  - rewrite lookup_insert. destruct (decide (handle = h)) as [<-|Hne].
    + intros [= <-]. apply set_clients_well_formed; [exact (Hinv handle sock Hreg) | exact Hcs].
    + apply Hinv.
  - rewrite lookup_delete. destruct (decide (handle = h)); [discriminate|]. apply Hinv.
  - rewrite lookup_empty. discriminate.
Qed.

Lemma registry_step_unregistered (g g' : Globals) (h : Z) :
  registry_step g g' -> h < g_next_handle g ->
  g_sockets g !! h = None -> g_sockets g' !! h = None.
Proof.
  intros Hstep Hlt Hnone.
  destruct Hstep as [-> _|sock _ -> _|handle sock cs Hreg _ -> _|handle -> _| -> _].
  - exact Hnone.
  - rewrite lookup_insert_ne by lia. exact Hnone.
  - rewrite lookup_insert_ne by congruence. exact Hnone.
  - rewrite lookup_delete. destruct (decide (handle = h)); [reflexivity | exact Hnone].
  - apply lookup_empty.
Qed.

(** X7. After every run from the initial globals shorter than [INT_MAX]
    calls, each registered handle lies between 1 and the counter, the counter
    excluded: the handle the next creation takes is free, so
    [g_sockets[handle] = zmqSock] never replaces a live socket. *)
Theorem registered_handles_below_counter (calls : list (OS * api_call)) :
  Z.of_nat (length calls) < INT_MAX ->
  handles_below_counter (run calls initial_globals).2
  /\ 1 <= g_next_handle (run calls initial_globals).2 <= INT_MAX
  /\ g_sockets (run calls initial_globals).2
       !! g_next_handle (run calls initial_globals).2 = None.
Proof.
  intros Hlen.
  pose (P := fun (n : nat) (g : Globals) =>
               handles_below_counter g
               /\ 1 <= g_next_handle g /\ g_next_handle g + Z.of_nat n <= INT_MAX).
  assert (HP : P O (run calls initial_globals).2).
  { apply (run_invariant P).
    - intros n os c g (Hinv & Hlo & Hhi).
      destruct (perform_effect os c g) as [Hstep _].
      pose proof (registry_step_counter _ _ Hstep) as Hc.
      split; [apply (registry_step_handles g); [exact Hstep | lia | exact Hinv]|]. lia.
    - split; [intros h s H; simpl in H; rewrite lookup_empty in H; discriminate H|].
      simpl. unfold INT_MAX in *. lia. }
  destruct HP as (Hinv & Hlo & Hhi). split; [exact Hinv|]. split; [lia|].
  destruct (g_sockets _ !! g_next_handle _) as [sock|] eqn:E; [|reflexivity].
  apply Hinv in E. lia.
Qed.

(** X9. After every run from the initial globals, each registered socket has
    a valid endpoint, no [INVALID_SOCKET] among its clients, and is either a
    bound "PUB" or an unbound "SUB" socket. *)
Theorem sockets_stay_well_formed (calls : list (OS * api_call)) :
  sockets_well_formed (run calls initial_globals).2.
Proof.
  apply (run_invariant (fun _ g => sockets_well_formed g)).
  - intros _ os c g Hinv. destruct (perform_effect os c g) as [Hstep _].
    exact (registry_step_well_formed _ _ Hstep Hinv).
  - intros h s H. simpl in H. rewrite lookup_empty in H. discriminate H.
Qed.

(** X8. A handle below the counter that is not registered, such as one that
    was closed, is never registered again by any later calls (as long as the
    counter stays within [int]): creations only take handles from the
    counter upwards. *)
Theorem unregistered_handle_stays_unregistered (calls : list (OS * api_call))
    (g : Globals) (handle : Z) :
  1 <= g_next_handle g ->
  g_next_handle g + Z.of_nat (length calls) <= INT_MAX ->
  handle < g_next_handle g ->
  g_sockets g !! handle = None ->
  g_sockets (run calls g).2 !! handle = None.
Proof.
  intros Hlo Hhi Hlt Hnone.
  pose (P := fun (n : nat) (g : Globals) =>
               g_sockets g !! handle = None /\ handle < g_next_handle g
               /\ 1 <= g_next_handle g /\ g_next_handle g + Z.of_nat n <= INT_MAX).
  assert (HP : P O (run calls g).2).
  { apply (run_invariant P); [|repeat split; assumption].
    intros n os c g0 (Hn & Hl & Hlo0 & Hhi0).
    destruct (perform_effect os c g0) as [Hstep _].
    pose proof (registry_step_counter _ _ Hstep) as Hc.
    split; [exact (registry_step_unregistered _ _ _ Hstep Hl Hn)|]. lia. }
  exact (proj1 HP).
Qed.

(** ** Creation *)

(** X5. On initialised globals [zmq_create_publisher] has two outcomes.
    Either the address parses and socket, address conversion, bind and listen
    all succeed: it then returns the counter, registers under it a bound
    "PUB" socket without clients, and has issued socket, setsockopt, ioctl,
    bind (with the port as a 16-bit value) and listen, closing nothing.  Or it
    returns -1 with one of the DLL's messages as the only change to the
    globals, and the socket it may have opened is closed by its last call. *)
Theorem zmq_create_publisher_registers_or_cleans_up (os : OS) (address : string)
    (g : Globals) :
  g_initialized g = true ->
  (exists (host : string) (port sin_addr : Z),
      value_of (ParseAddress address g) = Some (host, port)
      /\ os_socket os <> INVALID_SOCKET /\ StringToAddr os host = Some sin_addr
      /\ os_bind os <> SOCKET_ERROR /\ os_listen os <> SOCKET_ERROR
      /\ zmq_create_publisher os address g
         = (g_next_handle g, registered (new_publisher os address) g,
            [sys_socket (os_socket os); sys_setsockopt_SO_REUSEADDR (os_socket os);
             sys_ioctlsocket_FIONBIO (os_socket os);
             sys_bind (os_socket os) sin_addr (u_short port) (os_bind os);
             sys_listen (os_socket os) (os_listen os)]))
  \/ (exists (msg : string) (log : list syscall),
        msg ∈ error_messages
        /\ zmq_create_publisher os address g = (-1, with_last_error msg g, log)
        /\ (log = []
            \/ (os_socket os = INVALID_SOCKET /\ log = [sys_socket INVALID_SOCKET])
            \/ exists mid : list syscall,
                 log = sys_socket (os_socket os) :: mid ++ [sys_closesocket (os_socket os)])).
Proof.
  intros Hinit. rewrite zmq_create_publisher_after_init, after_init_initialized by exact Hinit.
  apply zmq_create_publisher_locked_result.
Qed.

(** X6. On initialised globals [zmq_create_subscriber] has two outcomes.
    Either the address parses and socket, address conversion (with
    "localhost" read as 127.0.0.1) and connect all succeed: it then returns
    the counter, registers under it an unbound "SUB" socket, and has issued
    socket, connect and ioctl.  Or it returns -1 with one of the DLL's
    messages as the only change to the globals, and the socket it may have
    opened is closed by its last call. *)
Theorem zmq_create_subscriber_registers_or_cleans_up (os : OS) (address : string)
    (g : Globals) :
  g_initialized g = true ->
  (exists (host : string) (port sin_addr : Z),
      value_of (ParseAddress address g) = Some (host, port)
      /\ os_socket os <> INVALID_SOCKET
      /\ StringToAddr os (if decide (host = "localhost"%string) then "127.0.0.1"%string else host)
         = Some sin_addr
      /\ os_connect os <> SOCKET_ERROR
      /\ zmq_create_subscriber os address g
         = (g_next_handle g, registered (new_subscriber os address) g,
            [sys_socket (os_socket os);
             sys_connect (os_socket os) sin_addr (u_short port) (os_connect os);
             sys_ioctlsocket_FIONBIO (os_socket os)]))
  \/ (exists (msg : string) (log : list syscall),
        msg ∈ error_messages
        /\ zmq_create_subscriber os address g = (-1, with_last_error msg g, log)
        /\ (log = []
            \/ (os_socket os = INVALID_SOCKET /\ log = [sys_socket INVALID_SOCKET])
            \/ exists mid : list syscall,
                 log = sys_socket (os_socket os) :: mid ++ [sys_closesocket (os_socket os)])).
Proof.
  intros Hinit. rewrite zmq_create_subscriber_after_init, after_init_initialized by exact Hinit.
  apply zmq_create_subscriber_locked_result.
Qed.

(** ** Init and term *)

(** X4. [zmq_init] either succeeds, leaving the globals initialised and the
    last-error text as it was, after which any further [zmq_init] returns 0
    without a call to Winsock or a change; or it fails because [WSAStartup]
    did, leaving the globals uninitialised with the text "WSAStartup failed",
    so that it can be tried again. *)
Theorem zmq_init_once (os : OS) (g : Globals) :
  (value_of (zmq_init os g) = 0
   /\ g_initialized (globals_of (zmq_init os g)) = true
   /\ g_last_error (globals_of (zmq_init os g)) = g_last_error g
   /\ forall os' : OS,
        zmq_init os' (globals_of (zmq_init os g)) = (0, globals_of (zmq_init os g), []))
  \/ (g_initialized g = false /\ os_WSAStartup os <> 0
      /\ zmq_init os g
         = (-1, with_last_error "WSAStartup failed" g, [sys_WSAStartup (os_WSAStartup os)])).
Proof.
  destruct (g_initialized g) eqn:Hinit.
  - left. assert (Hsame : forall os0, zmq_init os0 g = (0, g, [])).
    { intros os0. unfold zmq_init. unfold_M. rewrite Hinit. reflexivity. }
    rewrite Hsame. unfold value_of, globals_of. simpl. auto.
  - rewrite (zmq_init_uninitialized os g Hinit).
    destruct (decide (os_WSAStartup os <> 0)) as [Hwsa|Hwsa]; [right; auto|].
    left. unfold value_of, globals_of. simpl.
    split; [reflexivity|]. split; [reflexivity|]. split; [reflexivity|].
    intros os'. unfold zmq_init. unfold_M. reflexivity.
Qed.


(** ** The last-error text *)

Lemma substr_to_length_le (n : nat) (s : string) : (String.length (substr_to n s) <= n)%nat.
Proof.
  revert s. induction n as [|n IH]; intros s; [simpl; lia|].
  destruct s as [|c s]; simpl; [lia|]. specialize (IH s). lia.
Qed.

Lemma substr_to_all (n : nat) (s : string) :
  (String.length s <= n)%nat -> substr_to n s = s.
Proof.
  revert s. induction n as [|n IH]; intros s Hlen.
  - destruct s; [reflexivity | simpl in Hlen; lia].
  - destruct s as [|c s]; [reflexivity|]. simpl in *. f_equal. apply IH. lia.
Qed.

Lemma occurs_substr_to (c : ascii) (n : nat) (s : string) :
  occurs c (substr_to n s) -> occurs c s.
Proof.
  revert s. induction n as [|n IH]; intros s; [simpl; tauto|].
  destruct s as [|c' s]; simpl; [tauto|]. intros [H|H]; [left; exact H | right; exact (IH s H)].
Qed.

(** X12. [SetLastError] stores at most 255 characters, without NUL, of the
    C string it is given, and all of it when it is that short;
    [zmq_get_last_error] then returns exactly the stored text.  Registry,
    counter and initialised flag are not touched. *)
Theorem SetLastError_truncates (error : string) (g : Globals) :
  (String.length (g_last_error (globals_of (SetLastError error g))) <= 255)%nat
  /\ ~ occurs NUL (g_last_error (globals_of (SetLastError error g)))
  /\ ((String.length (c_str error) <= 255)%nat ->
        g_last_error (globals_of (SetLastError error g)) = c_str error)
  /\ value_of (zmq_get_last_error (globals_of (SetLastError error g)))
     = g_last_error (globals_of (SetLastError error g))
  /\ g_sockets (globals_of (SetLastError error g)) = g_sockets g
  /\ g_next_handle (globals_of (SetLastError error g)) = g_next_handle g
  /\ g_initialized (globals_of (SetLastError error g)) = g_initialized g.
Proof.
  unfold SetLastError, zmq_get_last_error. unfold_M.
  cbn [fst snd with_last_error g_last_error g_sockets g_next_handle g_initialized].
  assert (Hno : ~ occurs NUL (substr_to 255 (c_str error))).
  { intros H. apply occurs_substr_to in H. exact (c_str_no_NUL error H). }
  split; [apply substr_to_length_le|]. split; [exact Hno|].
  split; [apply substr_to_all|]. split; [apply c_str_id, Hno|]. auto.
Qed.

Lemma error_messages_short (msg : string) :
  msg ∈ error_messages -> (0 < String.length msg <= 255)%nat /\ c_str msg = msg.
Proof.
  unfold error_messages. rewrite !elem_of_cons, elem_of_nil.
  intros H. repeat (destruct H as [->|H]; [split; [simpl; lia | reflexivity]|]).
  destruct H.
Qed.

(** X10. After every run from the initial globals the last-error text is
    empty or one of the eleven messages of the DLL; it fits the 256-byte
    buffer and [zmq_get_last_error] returns it whole. *)
Theorem last_error_is_a_known_message (calls : list (OS * api_call)) :
  (g_last_error (run calls initial_globals).2 = EmptyString
   \/ g_last_error (run calls initial_globals).2 ∈ error_messages)
  /\ (String.length (g_last_error (run calls initial_globals).2) <= 255)%nat
  /\ value_of (zmq_get_last_error (run calls initial_globals).2)
     = g_last_error (run calls initial_globals).2.
Proof.
  assert (H : g_last_error (run calls initial_globals).2 = EmptyString
              \/ g_last_error (run calls initial_globals).2 ∈ error_messages).
  { apply (run_invariant
             (fun _ g => g_last_error g = EmptyString \/ g_last_error g ∈ error_messages)).
    - intros _ os c g Hinv. destruct (perform_effect os c g) as [_ [->|[_ He]]];
        [exact Hinv | right; exact He].
    - left. reflexivity. }
  split; [exact H|]. unfold zmq_get_last_error. unfold_M. simpl.
  destruct H as [->|H]; [split; [simpl; lia | reflexivity]|].
  destruct (error_messages_short _ H) as [Hlen Hc]. split; [lia | exact Hc].
Qed.

(** X11. A call that returns something other than -1 leaves the last-error
    text as it was: success never clears the text of an earlier failure. *)
Theorem last_error_kept_unless_failure (os : OS) (c : api_call) (g : Globals) :
  value_of (perform os c g) <> -1 ->
  g_last_error (globals_of (perform os c g)) = g_last_error g.
Proof.
  intros Hv. destruct (perform_effect os c g) as [_ [H|[H _]]]; [exact H | contradiction].
Qed.

(** ** Receive: what it leaves alone *)


(** ** Send with nothing to do *)

Lemma marked_from_none (os : OS) (peers : list SOCKET) (k : nat) :
  (forall (i : nat) (c : SOCKET), peers !! i = Some c -> ~ write_failed os (k + i) c) ->
  marked_from os k peers = [].
Proof.
  intros Hok. apply elem_of_nil_inv. intros c Hc.
  apply elem_of_marked_from in Hc. destruct Hc as (i & Hi & Hw). exact (Hok i c Hi Hw).
Qed.

(** X14. A send on a registered handle with no connection pending and no
    write failing other than by would-block leaves the globals exactly as
    they were; it has made one [accept] and one [send] per client. *)
Theorem zmq_send_message_quiet (os : OS) (handle : Z) (topic message : string)
    (g : Globals) (sock : ZMQSocket) :
  g_sockets g !! handle = Some sock ->
  admitted (os_accept os) = [] ->
  (forall (i : nat) (c : SOCKET), clients sock !! i = Some c ->
     ~ ((os_send os i c).1 = SOCKET_ERROR /\ (os_send os i c).2 <> WSAEWOULDBLOCK)) ->
  zmq_send_message os handle topic message g
  = (0, g,
     sys_accept (socket sock) INVALID_SOCKET
     :: broadcast_from os (frame_encode topic message) 0 (clients sock)).
Proof.
  intros Hreg Hadm Hok.
  rewrite (zmq_send_message_registered os handle topic message g sock Hreg).
  unfold send_log, peers_kept, marked_disconnected, peers_served, admission_log.
  rewrite Hadm, !app_nil_r. rewrite (marked_from_none os (clients sock) 0 Hok).
  rewrite filter_none_marked. simpl. rewrite ?app_nil_r. f_equal. f_equal.
  destruct g as [gi gn gs ge], sock as [s t a b cs]. unfold with_sockets, set_clients.
  simpl in *. f_equal. apply insert_id. exact Hreg.
Qed.

(** ** Reads that are not one whole frame *)

Lemma substr_to_app_le (n : nat) (a b : string) :
  (n <= String.length a)%nat -> substr_to n (a +:+ b) = substr_to n a.
Proof.
  revert a. induction n as [|n IH]; intros a Hn; [reflexivity|].
  destruct a as [|c a]; simpl in *; [lia|]. f_equal. apply IH. lia.
Qed.

Lemma substr_to_app_gt (k : nat) (a b : string) :
  substr_to (String.length a + k) (a +:+ b) = a +:+ substr_to k b.
Proof. induction a as [|c a IH]; simpl; [reflexivity | f_equal; exact IH]. Qed.

Lemma occurs_app (c : ascii) (a b : string) :
  occurs c (a +:+ b) <-> occurs c a \/ occurs c b.
Proof. induction a as [|c' a IH]; simpl; [tauto | rewrite IH; tauto]. Qed.

Lemma c_str_app_NUL (a b : string) : ~ occurs NUL a -> c_str (a +:+ String NUL b) = a.
Proof.
  induction a as [|c a IH]; simpl; intros Hno.
  - destruct (decide (NUL = Ascii.zero)) as [_|H]; [reflexivity | exfalso; apply H; reflexivity].
  - destruct (decide (c = Ascii.zero)) as [->|Hne]; [exfalso; apply Hno; left; reflexivity|].
    f_equal. apply IH. tauto.
Qed.

Lemma frame_encode_length (topic payload : string) :
  String.length (frame_encode topic payload)
  = (String.length topic + 1 + String.length payload)%nat.
Proof.
  unfold frame_encode. rewrite app_assoc_string. simpl.
  induction topic as [|c t IH]; simpl; [reflexivity | rewrite IH; reflexivity].
Qed.

(** X15. When the read returns only the first [n] bytes of a frame: up to the
    length of the topic, no separator was read and the call returns -1; past
    the separator, the call returns 0 with the whole topic and the payload cut
    after the bytes read.  (This is what the 4096-byte buffer does to longer
    frames.)  The bytes read are consumed either way. *)
Theorem zmq_recv_message_short_read (os : OS) (handle : Z) (timeout_ms : Z)
    (g : Globals) (sock : ZMQSocket) (topic payload : string) (n : nat) :
  g_sockets g !! handle = Some sock ->
  type sock = "SUB"%string ->
  ~ occurs NUL topic -> ~ occurs NUL payload ->
  0 < os_select os ->
  os_recv os = (Z.of_nat n, frame_encode topic payload) ->
  ((0 < n <= String.length topic)%nat ->
     value_of (zmq_recv_message os handle timeout_ms g) = (-1, None))
  /\ (forall k : nat, n = (String.length topic + 1 + k)%nat ->
        value_of (zmq_recv_message os handle timeout_ms g)
        = (0, Some (topic, substr_to k payload))).
Proof.
  intros Hreg Hty Htopic Hpayload Hsel Hrecv. split.
  - intros Hn.
    rewrite (zmq_recv_message_decoded os handle timeout_ms g sock Hreg Hty Hsel)
      by (rewrite Hrecv; simpl; lia).
    rewrite Hrecv. simpl fst. simpl snd. rewrite Nat2Z.id.
    unfold frame_encode. rewrite app_assoc_string, substr_to_app_le by lia.
    unfold frame_decode.
    assert (Hnone : find NUL (substr_to n topic) = None).
    { apply find_none. intros H. exact (Htopic (occurs_substr_to _ _ _ H)). }
    rewrite Hnone. reflexivity.
  - intros k ->.
    rewrite (zmq_recv_message_decoded os handle timeout_ms g sock Hreg Hty Hsel)
      by (rewrite Hrecv; simpl; lia).
    rewrite Hrecv. simpl fst. simpl snd. rewrite Nat2Z.id.
    assert (Hdata : substr_to (String.length topic + 1 + k) (frame_encode topic payload)
                    = frame_encode topic (substr_to k payload)).
    { unfold frame_encode. rewrite !app_assoc_string.
      rewrite <- Nat.add_assoc, substr_to_app_gt. reflexivity. }
    rewrite Hdata, (frame_decode_encode topic _ Htopic).
    rewrite (c_str_id topic Htopic), c_str_id; [reflexivity|].
    intros H. exact (Hpayload (occurs_substr_to _ _ _ H)).
Qed.

(** X16. When one read returns two frames back to back, the call returns 0
    with the first topic and, as message, the first payload followed by the
    second topic: the frame has no terminator, and the text handed out stops
    at the second NUL.  The second payload is dropped. *)
Theorem zmq_recv_message_two_frames (os : OS) (handle : Z) (timeout_ms : Z)
    (g : Globals) (sock : ZMQSocket) (topic1 payload1 topic2 payload2 : string) :
  g_sockets g !! handle = Some sock ->
  type sock = "SUB"%string ->
  ~ occurs NUL topic1 -> ~ occurs NUL payload1 -> ~ occurs NUL topic2 ->
  0 < os_select os ->
  os_recv os
  = (Z.of_nat (String.length (frame_encode topic1 payload1 +:+ frame_encode topic2 payload2)),
     frame_encode topic1 payload1 +:+ frame_encode topic2 payload2) ->
  value_of (zmq_recv_message os handle timeout_ms g)
  = (0, Some (topic1, payload1 +:+ topic2)).
Proof.
  intros Hreg Hty Ht1 Hp1 Ht2 Hsel Hrecv.
  assert (Hdata : frame_encode topic1 payload1 +:+ frame_encode topic2 payload2
                  = frame_encode topic1 ((payload1 +:+ topic2) +:+ String NUL payload2)).
  { unfold frame_encode. rewrite !app_assoc_string. reflexivity. }
  rewrite (zmq_recv_message_decoded os handle timeout_ms g sock Hreg Hty Hsel).
  2:{ rewrite Hrecv. simpl fst. rewrite Hdata, frame_encode_length. lia. }
  rewrite Hrecv. simpl fst. simpl snd. rewrite Nat2Z.id, substr_to_length, Hdata.
  rewrite (frame_decode_encode topic1 _ Ht1), (c_str_id topic1 Ht1).
  rewrite c_str_app_NUL; [reflexivity|].
  rewrite occurs_app. tauto.
Qed.

(** ** Ports at the edge of [int], ports beyond 16 bits, and the parser's messages *)

Lemma stoi_minus (c : ascii) (s : string) :
  digit_of c <> None ->
  stoi (String "-" (String c s))
  = if decide (INT_MIN <= - (scan_digits 0 (String c s)).1 <= INT_MAX)
    then Some (- (scan_digits 0 (String c s)).1) else None.
Proof.
  intros Hd.
  destruct c as [[] [] [] [] [] [] [] []]; try (exfalso; apply Hd; reflexivity);
    unfold stoi; cbn [skip_spaces];
    match goal with |- context [isspace ?c] => change (isspace c) with false end;
    cbv iota; cbn [scan_digits]; digit_known;
    destruct (scan_digits _ s) as [v n]; cbn [fst];
    rewrite (decide_False (P := S n = O)) by discriminate; reflexivity.
Qed.

Lemma scan_decimal (n : Z) : 0 <= n -> (scan_digits 0 (decimal n)).1 = n.
Proof.
  intros Hn. unfold decimal. rewrite scan_value.
  change (Pos.of_uint (N.to_uint (Z.to_N n))) with (N.of_uint (N.to_uint (Z.to_N n))).
  rewrite DecimalN.Unsigned.of_to. apply Z2N.id, Hn.
Qed.

Lemma stoi_decimal_range (n : Z) :
  0 <= n ->
  stoi (decimal n) = (if decide (n <= INT_MAX) then Some n else None)
  /\ stoi (String "-" (decimal n)) = (if decide (n <= - INT_MIN) then Some (- n) else None).
Proof.
  intros Hn. destruct (decimal_head n) as (c & s & Heq & Hd).
  pose proof (scan_decimal n Hn) as Hscan. rewrite Heq in Hscan.
  rewrite Heq, (stoi_digit_head c s Hd), (stoi_minus c s Hd), Hscan.
  unfold INT_MIN, INT_MAX. split.
  - destruct (decide (n <= 2147483647)); [apply decide_True | apply decide_False]; lia.
  - destruct (decide (n <= - -2147483648)); [apply decide_True | apply decide_False]; lia.
Qed.

(** X17. For a host without colon and a decimal numeral [n]: the address
    [tcp://host:n] parses exactly when [n <= INT_MAX], with port [n]; and
    [tcp://host:-n] parses exactly when [n <= 2^31], with the negative port
    [-n]. *)
Theorem ParseAddress_port_limits (host : string) (n : Z) (g : Globals) :
  ~ occurs ":" host -> 0 <= n ->
  value_of (ParseAddress ("tcp://" +:+ host +:+ ":" +:+ decimal n) g)
  = (if decide (n <= INT_MAX) then Some (wildcard host, n) else None)
  /\ value_of (ParseAddress ("tcp://" +:+ host +:+ ":-" +:+ decimal n) g)
     = (if decide (n <= - INT_MIN) then Some (wildcard host, - n) else None).
Proof.
  intros Hhost Hn. destruct (stoi_decimal_range n Hn) as [Hpos Hneg]. split.
  - rewrite (ParseAddress_form host (decimal n) g Hhost), Hpos.
    destruct (decide (n <= INT_MAX)); reflexivity.
  - change ("tcp://" +:+ host +:+ ":-" +:+ decimal n)
      with ("tcp://" +:+ host +:+ ":" +:+ String "-" (decimal n)).
    rewrite (ParseAddress_form host _ g Hhost), Hneg.
    destruct (decide (n <= - INT_MIN)); reflexivity.
Qed.

Lemma ParseAddress_accepting (addr : string) (hp : string * Z) (g0 : Globals) :
  value_of (ParseAddress addr g0) = Some hp ->
  forall g : Globals, ParseAddress addr g = (Some hp, g, []).
Proof.
  intros Hv. destruct (ParseAddress_cases addr) as [[hp' H]|(msg & _ & H)];
    rewrite H in Hv; [|discriminate Hv].
  injection Hv as <-. exact H.
Qed.

(** X18. [ParseAddress] names the cause of a rejection in the last-error
    text and changes nothing else: "must be tcp://" when the string does not
    start with the scheme, "missing port" when no colon follows it, "Invalid
    port number" when [std::stoi] rejects the text after the first colon.  An
    accepted address leaves the globals, an older error text included, as
    they were. *)
Theorem ParseAddress_reports_cause (addr : string) (g : Globals) :
  ((forall rest : string, addr <> "tcp://" +:+ rest) ->
     ParseAddress addr g
     = (None, with_last_error "Invalid address format (must be tcp://...)" g, []))
  /\ (forall hostPort : string,
        addr = "tcp://" +:+ hostPort -> ~ occurs ":" hostPort ->
        ParseAddress addr g
        = (None, with_last_error "Invalid address format (missing port)" g, []))
  /\ (forall host rest : string,
        addr = "tcp://" +:+ host +:+ ":" +:+ rest -> ~ occurs ":" host ->
        stoi rest = None ->
        ParseAddress addr g = (None, with_last_error "Invalid port number" g, []))
  /\ (forall hp : string * Z,
        value_of (ParseAddress addr g) = Some hp -> ParseAddress addr g = (Some hp, g, [])).
Proof.
  split; [|split; [|split]].
  - intros Hscheme. unfold ParseAddress.
    destruct (decide (substr_to 6 addr <> "tcp://"%string)) as [|Heq]; [reflexivity|].
    exfalso. apply (Hscheme (substr_from 6 addr)).
    rewrite (substr_to_from 6 addr) at 1.
    destruct (decide (substr_to 6 addr = "tcp://"%string)) as [->|Hne]; [reflexivity | tauto].
  - intros hostPort -> Hcolon. unfold ParseAddress.
    change (substr_to 6 ("tcp://" +:+ hostPort)) with "tcp://"%string.
    rewrite decide_False by (intros H; apply H; reflexivity).
    change (substr_from 6 ("tcp://" +:+ hostPort)) with hostPort.
    apply find_none in Hcolon. rewrite Hcolon. reflexivity.
  - intros host rest -> Hhost Hstoi. unfold ParseAddress.
    change (substr_to 6 ("tcp://" +:+ host +:+ ":" +:+ rest)) with "tcp://"%string.
    rewrite decide_False by (intros H; apply H; reflexivity).
    change (substr_from 6 ("tcp://" +:+ host +:+ ":" +:+ rest)) with (host +:+ String ":" rest).
    rewrite (find_app_first ":" host rest Hhost), substr_from_app_succ, Hstoi. reflexivity.
  - intros hp Hv. exact (ParseAddress_accepting addr hp g Hv g).
Qed.

(** X19. The port reaches [bind] and [connect] through [htons], a 16-bit
    value: two addresses with the same host whose ports agree modulo 65536
    make [zmq_create_publisher], and [zmq_create_subscriber], return the same
    value after the same Winsock calls. *)
Theorem port_is_taken_modulo_65536 (os : OS) (host : string) (p q : Z) (g : Globals) :
  ~ occurs ":" host ->
  0 <= p <= INT_MAX -> 0 <= q <= INT_MAX ->
  p mod 65536 = q mod 65536 ->
  value_of (zmq_create_publisher os ("tcp://" +:+ host +:+ ":" +:+ decimal p) g)
  = value_of (zmq_create_publisher os ("tcp://" +:+ host +:+ ":" +:+ decimal q) g)
  /\ log_of (zmq_create_publisher os ("tcp://" +:+ host +:+ ":" +:+ decimal p) g)
     = log_of (zmq_create_publisher os ("tcp://" +:+ host +:+ ":" +:+ decimal q) g)
  /\ value_of (zmq_create_subscriber os ("tcp://" +:+ host +:+ ":" +:+ decimal p) g)
     = value_of (zmq_create_subscriber os ("tcp://" +:+ host +:+ ":" +:+ decimal q) g)
  /\ log_of (zmq_create_subscriber os ("tcp://" +:+ host +:+ ":" +:+ decimal p) g)
     = log_of (zmq_create_subscriber os ("tcp://" +:+ host +:+ ":" +:+ decimal q) g).
Proof.
  intros Hhost Hp Hq Hmod.
  assert (Hparse : forall n, 0 <= n <= INT_MAX -> forall g0,
            ParseAddress ("tcp://" +:+ host +:+ ":" +:+ decimal n) g0
            = (Some (wildcard host, n), g0, [])).
  { intros n Hn g0. apply (ParseAddress_accepting _ _ g0).
    rewrite (ParseAddress_form host (decimal n) g0 Hhost), (stoi_decimal n Hn). reflexivity. }
  assert (Hpub : forall g0,
            value_of (zmq_create_publisher_locked os ("tcp://" +:+ host +:+ ":" +:+ decimal p) g0)
            = value_of (zmq_create_publisher_locked os ("tcp://" +:+ host +:+ ":" +:+ decimal q) g0)
            /\ log_of (zmq_create_publisher_locked os ("tcp://" +:+ host +:+ ":" +:+ decimal p) g0)
               = log_of (zmq_create_publisher_locked os ("tcp://" +:+ host +:+ ":" +:+ decimal q) g0)).
  { intros g0. unfold zmq_create_publisher_locked, bind.
    rewrite !(Hparse p Hp), !(Hparse q Hq). unfold u_short. rewrite Hmod.
    unfold_M. unfold register_socket. unfold_M.
    destruct (decide (os_socket os = INVALID_SOCKET)); [split; reflexivity|].
    destruct (StringToAddr os (wildcard host)); [|split; reflexivity].
    destruct (decide (os_bind os = SOCKET_ERROR)); [split; reflexivity|].
    destruct (decide (os_listen os = SOCKET_ERROR)); split; reflexivity. }
  assert (Hsub : forall g0,
            value_of (zmq_create_subscriber_locked os ("tcp://" +:+ host +:+ ":" +:+ decimal p) g0)
            = value_of (zmq_create_subscriber_locked os ("tcp://" +:+ host +:+ ":" +:+ decimal q) g0)
            /\ log_of (zmq_create_subscriber_locked os ("tcp://" +:+ host +:+ ":" +:+ decimal p) g0)
               = log_of (zmq_create_subscriber_locked os ("tcp://" +:+ host +:+ ":" +:+ decimal q) g0)).
  { intros g0. unfold zmq_create_subscriber_locked, bind.
    rewrite !(Hparse p Hp), !(Hparse q Hq). unfold u_short. rewrite Hmod.
    unfold_M. unfold register_socket. unfold_M.
    destruct (decide (os_socket os = INVALID_SOCKET)); [split; reflexivity|].
    destruct (StringToAddr os _); [|split; reflexivity].
    destruct (decide (os_connect os = SOCKET_ERROR)); split; reflexivity. }
  rewrite !zmq_create_publisher_after_init, !zmq_create_subscriber_after_init.
  set (ap := "tcp://" +:+ host +:+ ":" +:+ decimal p) in *.
  set (aq := "tcp://" +:+ host +:+ ":" +:+ decimal q) in *.
  unfold after_init.
  destruct (g_initialized g); [|destruct (decide (os_WSAStartup os <> 0))].
  - destruct (Hpub g) as [-> ->]. destruct (Hsub g) as [-> ->]. tauto.
  - tauto.
  - unfold value_of, log_of in *. cbn [fst snd].
    destruct (Hpub (with_initialized true g)) as [-> ->].
    destruct (Hsub (with_initialized true g)) as [-> ->]. tauto.
Qed.

(** ** Instances *)

Example zmq_term_log :
  log_of (zmq_term Fixture.g_live)
  = [sys_closesocket 100; sys_closesocket 200; sys_closesocket 201; sys_closesocket 202;
     sys_closesocket 300; sys_WSACleanup].
Proof. vm_compute. reflexivity. Qed.

Lemma zmq_create_publisher_registers_or_cleans_up_witness :
  value_of (zmq_create_publisher Fixture.os_quiet "tcp://*:5560" Fixture.g_live) = 3
  \/ value_of (zmq_create_publisher Fixture.os_quiet "tcp://*:5560" Fixture.g_live) = -1.
Proof.
  destruct (zmq_create_publisher_registers_or_cleans_up Fixture.os_quiet "tcp://*:5560"
              Fixture.g_live)
    as [(host & port & sin_addr & _ & _ & _ & _ & _ & Heq)|(msg & log & _ & Heq & _)].
  - reflexivity.
  - left. rewrite Heq. reflexivity.
  - right. rewrite Heq. reflexivity.
Defined.

Lemma zmq_create_subscriber_registers_or_cleans_up_witness :
  value_of (zmq_create_subscriber Fixture.os_quiet "tcp://localhost:5560" Fixture.g_live) = 3
  \/ value_of (zmq_create_subscriber Fixture.os_quiet "tcp://localhost:5560" Fixture.g_live)
     = -1.
Proof.
  destruct (zmq_create_subscriber_registers_or_cleans_up Fixture.os_quiet
              "tcp://localhost:5560" Fixture.g_live)
    as [(host & port & sin_addr & _ & _ & _ & _ & Heq)|(msg & log & _ & Heq & _)].
  - reflexivity.
  - left. rewrite Heq. reflexivity.
  - right. rewrite Heq. reflexivity.
Defined.

Lemma registered_handles_below_counter_witness :
  g_sockets (run Fixture.harness_calls initial_globals).2
    !! g_next_handle (run Fixture.harness_calls initial_globals).2 = None.
Proof.
  apply (registered_handles_below_counter Fixture.harness_calls).
  vm_compute. reflexivity.
Defined.

Lemma unregistered_handle_stays_unregistered_witness :
  g_sockets (run Fixture.harness_calls Fixture.g_live).2 !! 0 = None.
Proof.
  apply (unregistered_handle_stays_unregistered Fixture.harness_calls Fixture.g_live 0).
  - simpl. lia.
  - unfold INT_MAX. simpl. lia.
  - simpl. lia.
  - vm_compute. reflexivity.
Defined.

Lemma last_error_kept_unless_failure_witness :
  g_last_error
    (globals_of (perform Fixture.os_quiet (call_zmq_send_message 1 "t" "m")
                   (with_last_error "Invalid handle" Fixture.g_live)))
  = "Invalid handle"%string.
Proof.
  apply (last_error_kept_unless_failure Fixture.os_quiet (call_zmq_send_message 1 "t" "m")
           (with_last_error "Invalid handle" Fixture.g_live)).
  vm_compute. discriminate.
Defined.

Lemma zmq_send_message_quiet_witness :
  globals_of (zmq_send_message Fixture.os_all_blocked 1 "unit.test" "data" Fixture.g_live)
  = Fixture.g_live.
Proof.
  rewrite (zmq_send_message_quiet Fixture.os_all_blocked 1 "unit.test" "data"
             Fixture.g_live Fixture.pub_socket).
  - reflexivity.
  - vm_compute. reflexivity.
  - reflexivity.
  - intros i c _ [_ H]. apply H. reflexivity.
Defined.

Lemma zmq_recv_message_short_read_witness :
  value_of (zmq_recv_message
              (Fixture.os_receiving 1 (12, frame_encode "unit.test" "{test:data}"))
              2 1000 Fixture.g_live)
  = (0, Some ("unit.test"%string, "{t"%string)).
Proof.
  destruct (zmq_recv_message_short_read
              (Fixture.os_receiving 1 (12, frame_encode "unit.test" "{test:data}"))
              2 1000 Fixture.g_live Fixture.sub_socket "unit.test" "{test:data}" 12)
    as [_ Hcut].
  - vm_compute. reflexivity.
  - reflexivity.
  - intros H; simpl in H; repeat (destruct H as [H|H]; [discriminate H|]); exact H.
  - intros H; simpl in H; repeat (destruct H as [H|H]; [discriminate H|]); exact H.
  - vm_compute. reflexivity.
  - reflexivity.
  - exact (Hcut 2%nat eq_refl).
Defined.

Lemma zmq_recv_message_two_frames_witness :
  value_of (zmq_recv_message
              (Fixture.os_receiving 1
                 (8, frame_encode "a" "1" +:+ frame_encode "bc" "23"))
              2 1000 Fixture.g_live)
  = (0, Some ("a"%string, "1bc"%string)).
Proof.
  apply (zmq_recv_message_two_frames
           (Fixture.os_receiving 1 (8, frame_encode "a" "1" +:+ frame_encode "bc" "23"))
           2 1000 Fixture.g_live Fixture.sub_socket "a" "1" "bc" "23").
  - vm_compute. reflexivity.
  - reflexivity.
  - intros H; simpl in H; repeat (destruct H as [H|H]; [discriminate H|]); exact H.
  - intros H; simpl in H; repeat (destruct H as [H|H]; [discriminate H|]); exact H.
  - intros H; simpl in H; repeat (destruct H as [H|H]; [discriminate H|]); exact H.
  - vm_compute. reflexivity.
  - reflexivity.
Defined.

Lemma ParseAddress_port_limits_witness :
  value_of (ParseAddress ("tcp://" +:+ "*" +:+ ":" +:+ decimal 2147483648) initial_globals)
  = None
  /\ value_of (ParseAddress ("tcp://" +:+ "*" +:+ ":-" +:+ decimal 2147483648) initial_globals)
     = Some ("0.0.0.0"%string, -2147483648).
Proof.
  apply (ParseAddress_port_limits "*" 2147483648 initial_globals).
  - intros H; simpl in H; repeat (destruct H as [H|H]; [discriminate H|]); exact H.
  - lia.
Defined.

Lemma port_is_taken_modulo_65536_witness :
  log_of (zmq_create_publisher Fixture.os_quiet
            ("tcp://" +:+ "*" +:+ ":" +:+ decimal 5559) Fixture.g_live)
  = log_of (zmq_create_publisher Fixture.os_quiet
              ("tcp://" +:+ "*" +:+ ":" +:+ decimal 71095) Fixture.g_live).
Proof.
  apply (port_is_taken_modulo_65536 Fixture.os_quiet "*" 5559 71095 Fixture.g_live).
  - intros H; simpl in H; repeat (destruct H as [H|H]; [discriminate H|]); exact H.
  - unfold INT_MAX. lia.
  - unfold INT_MAX. lia.
  - reflexivity.
Defined.

Example port_71095_binds_5559 :
  log_of (zmq_create_publisher Fixture.os_quiet "tcp://*:71095" Fixture.g_live)
  = [sys_socket 400; sys_setsockopt_SO_REUSEADDR 400; sys_ioctlsocket_FIONBIO 400;
     sys_bind 400 16777343 5559 0; sys_listen 400 0].
Proof. vm_compute. reflexivity. Qed.

(** ** Close, with its calls *)

(** X2. On initialised globals, [zmq_close] on a handle that is not
    registered returns -1 and does nothing.  On a registered handle it calls
    [closesocket] on the socket's endpoint and then on each of its clients in
    list order, and makes no other call; it returns 0 and removes the handle
    from the registry, leaving the rest of the globals alone, so that closing
    the handle again returns -1 without a call. *)
Theorem zmq_close_once (handle : Z) (g : Globals) :
  g_initialized g = true ->
  (g_sockets g !! handle = None -> zmq_close handle g = (-1, g, []))
  /\ (forall sock : ZMQSocket, g_sockets g !! handle = Some sock ->
        zmq_close handle g
        = (0, with_sockets (delete handle (g_sockets g)) g,
           (if decide (socket sock <> INVALID_SOCKET)
            then [sys_closesocket (socket sock)] else [])
           ++ (sys_closesocket <$> clients sock))
        /\ g_initialized (globals_of (zmq_close handle g)) = true
        /\ g_sockets (globals_of (zmq_close handle g)) !! handle = None
        /\ (forall other : Z, other <> handle ->
              g_sockets (globals_of (zmq_close handle g)) !! other = g_sockets g !! other)
        /\ zmq_close handle (globals_of (zmq_close handle g))
           = (-1, globals_of (zmq_close handle g), [])).
Proof.
  intros Hinit. split; [apply zmq_close_unregistered|].
  intros sock Hreg. rewrite (zmq_close_registered handle g sock Hreg).
  unfold globals_of. simpl.
  split; [reflexivity|]. split; [exact Hinit|].
  split; [apply lookup_delete_eq|].
  split; [intros other Hne; apply lookup_delete_ne; congruence|].
  apply zmq_close_unregistered. simpl. apply lookup_delete_eq.
Qed.

Lemma zmq_close_once_witness :
  zmq_close 1 Fixture.g_live
  = (0, with_sockets (delete 1 (g_sockets Fixture.g_live)) Fixture.g_live,
     [sys_closesocket 100; sys_closesocket 200; sys_closesocket 201; sys_closesocket 202]).
Proof.
  destruct (zmq_close_once 1 Fixture.g_live) as [_ Hreg]; [reflexivity|].
  destruct (Hreg Fixture.pub_socket) as [Heq _]; [vm_compute; reflexivity|].
  rewrite Heq. reflexivity.
Defined.

(** ** Term, with its calls *)

(** X3. On initialised globals [zmq_term] calls [closesocket] on the endpoint
    and on every client of every registered socket and on nothing else, then
    [WSACleanup]; it empties the registry and clears the initialised flag, the
    counter and the last-error text being kept.  A second [zmq_term] does
    nothing, and [DllMain] on process detach is this very call. *)
Theorem zmq_term_closes_everything (g : Globals) :
  g_initialized g = true ->
  zmq_term g
  = (tt, with_initialized false (with_sockets ∅ g),
     flat_map (fun entry => close_log entry.2) (in_key_order (g_sockets g))
     ++ [sys_WSACleanup])
  /\ (forall (handle : Z) (sock : ZMQSocket), g_sockets g !! handle = Some sock ->
        (socket sock <> INVALID_SOCKET ->
           sys_closesocket (socket sock) ∈ log_of (zmq_term g))
        /\ (forall c : SOCKET, c ∈ clients sock ->
              sys_closesocket c ∈ log_of (zmq_term g)))
  /\ (forall e : syscall, e ∈ log_of (zmq_term g) ->
        e = sys_WSACleanup
        \/ exists (handle : Z) (sock : ZMQSocket) (s : SOCKET),
             g_sockets g !! handle = Some sock /\ e = sys_closesocket s
             /\ (s = socket sock \/ s ∈ clients sock))
  /\ (forall (handle : Z) (sock : ZMQSocket),
        (handle, sock) ∈ in_key_order (g_sockets g) <-> g_sockets g !! handle = Some sock)
  /\ g_sockets (globals_of (zmq_term g)) = ∅
  /\ g_initialized (globals_of (zmq_term g)) = false
  /\ g_next_handle (globals_of (zmq_term g)) = g_next_handle g
  /\ g_last_error (globals_of (zmq_term g)) = g_last_error g
  /\ zmq_term (globals_of (zmq_term g)) = (tt, globals_of (zmq_term g), [])
  /\ DllMain DLL_PROCESS_DETACH g
     = (true, globals_of (zmq_term g), log_of (zmq_term g)).
Proof.
  intros Hinit. rewrite (zmq_term_initialized g Hinit). unfold globals_of, log_of. simpl.
  split; [reflexivity|].
  assert (Hclosed : forall (handle : Z) (sock : ZMQSocket) (e : syscall),
            g_sockets g !! handle = Some sock -> e ∈ close_log sock ->
            e ∈ flat_map (fun entry => close_log entry.2) (in_key_order (g_sockets g))
                ++ [sys_WSACleanup]).
  { intros handle sock e Hreg He. rewrite elem_of_app. left.
    apply list_elem_of_In, in_flat_map. exists (handle, sock).
    split; [apply list_elem_of_In, in_key_order_elem, Hreg | apply list_elem_of_In, He]. }
  split; [|split; [|split; [|split; [|split; [|split; [|split; [|split]]]]]]].
  - intros handle sock Hreg. split.
    + intros Hs. apply (Hclosed handle sock _ Hreg), closesocket_in_close_log. tauto.
    + intros c Hc. apply (Hclosed handle sock _ Hreg), closesocket_in_close_log. tauto.
  - intros e. rewrite elem_of_app, list_elem_of_singleton.
    intros [He|He]; [right | left; exact He].
    apply list_elem_of_In, in_flat_map in He. destruct He as ([handle sock] & Hin & He).
    apply list_elem_of_In, in_key_order_elem in Hin. apply list_elem_of_In in He. simpl in He.
    destruct (close_log_only_closes e sock He) as [s ->].
    exists handle, sock, s. split; [exact Hin|]. split; [reflexivity|].
    apply closesocket_in_close_log in He. tauto.
  - intros handle sock. apply in_key_order_elem.
  - reflexivity.
  - reflexivity.
  - reflexivity.
  - reflexivity.
  - apply zmq_term_uninitialized. reflexivity.
  - unfold DllMain. rewrite decide_False by (unfold DLL_PROCESS_DETACH, DLL_PROCESS_ATTACH,
      DLL_THREAD_ATTACH, DLL_THREAD_DETACH; lia).
    rewrite decide_True by reflexivity. unfold bind.
    rewrite (zmq_term_initialized g Hinit). unfold_M. simpl. rewrite app_nil_r. reflexivity.
Qed.

Lemma zmq_term_closes_everything_witness :
  zmq_term Fixture.g_live
  = (tt, with_initialized false (with_sockets ∅ Fixture.g_live),
     [sys_closesocket 100; sys_closesocket 200; sys_closesocket 201; sys_closesocket 202;
      sys_closesocket 300; sys_WSACleanup]).
Proof.
  destruct (zmq_term_closes_everything Fixture.g_live) as [Heq _]; [reflexivity|].
  rewrite Heq. vm_compute. reflexivity.
Defined.

(** ** Initialisation on demand, then the creation *)

Lemma zmq_create_publisher_locked_success (os : OS) (address : string) (g : Globals)
    (host : string) (port sin_addr : Z) :
  value_of (ParseAddress address g) = Some (host, port) ->
  os_socket os <> INVALID_SOCKET ->
  StringToAddr os host = Some sin_addr ->
  os_bind os <> SOCKET_ERROR ->
  os_listen os <> SOCKET_ERROR ->
  zmq_create_publisher_locked os address g
  = (g_next_handle g, registered (new_publisher os address) g,
     [sys_socket (os_socket os); sys_setsockopt_SO_REUSEADDR (os_socket os);
      sys_ioctlsocket_FIONBIO (os_socket os);
      sys_bind (os_socket os) sin_addr (u_short port) (os_bind os);
      sys_listen (os_socket os) (os_listen os)]).
Proof.
  intros Hparse Hs Haddr Hb Hl. unfold zmq_create_publisher_locked, bind.
  rewrite (ParseAddress_accepting address (host, port) g Hparse g).
  unfold_M. unfold register_socket. unfold_M.
  rewrite (decide_False _ _ Hs), Haddr, (decide_False _ _ Hb), (decide_False _ _ Hl).
  reflexivity.
Qed.

Lemma zmq_create_subscriber_locked_success (os : OS) (address : string) (g : Globals)
    (host : string) (port sin_addr : Z) :
  value_of (ParseAddress address g) = Some (host, port) ->
  os_socket os <> INVALID_SOCKET ->
  StringToAddr os (if decide (host = "localhost"%string) then "127.0.0.1"%string else host)
  = Some sin_addr ->
  os_connect os <> SOCKET_ERROR ->
  zmq_create_subscriber_locked os address g
  = (g_next_handle g, registered (new_subscriber os address) g,
     [sys_socket (os_socket os);
      sys_connect (os_socket os) sin_addr (u_short port) (os_connect os);
      sys_ioctlsocket_FIONBIO (os_socket os)]).
Proof.
  intros Hparse Hs Haddr Hc. unfold zmq_create_subscriber_locked, bind.
  rewrite (ParseAddress_accepting address (host, port) g Hparse g).
  unfold_M. unfold register_socket. unfold_M.
  rewrite (decide_False _ _ Hs), Haddr, (decide_False _ _ Hc).
  reflexivity.
Qed.

Lemma ParseAddress_value_any (addr : string) (g g' : Globals) :
  value_of (ParseAddress addr g) = value_of (ParseAddress addr g').
Proof.
  destruct (ParseAddress_cases addr) as [[hp H]|(msg & _ & H)]; rewrite !H; reflexivity.
Qed.

Lemma after_init_started (os : OS) (locked : M Z) (g : Globals) :
  g_initialized g = false -> os_WSAStartup os = 0 ->
  after_init os locked g
  = (value_of (locked (with_initialized true g)),
     globals_of (locked (with_initialized true g)),
     sys_WSAStartup 0 :: log_of (locked (with_initialized true g))).
Proof.
  intros Hinit Hwsa. unfold after_init. rewrite Hinit, Hwsa.
  rewrite decide_False by (intros H; apply H; reflexivity). reflexivity.
Qed.

Lemma after_init_failed (os : OS) (locked : M Z) (g : Globals) :
  g_initialized g = false -> os_WSAStartup os <> 0 ->
  after_init os locked g
  = (-1, with_last_error "WSAStartup failed" g, [sys_WSAStartup (os_WSAStartup os)]).
Proof.
  intros Hinit Hwsa. unfold after_init. rewrite Hinit, (decide_True _ _ Hwsa). reflexivity.
Qed.

Lemma creation_effect_initialized (g : Globals) (r : Z * Globals * list syscall) :
  creation_effect g r -> g_initialized (globals_of r) = g_initialized g.
Proof. intros [(msg & _ & _ & ->)|(sock & _ & _ & ->)]; reflexivity. Qed.

Lemma creation_effect_failure (g : Globals) (r : Z * Globals * list syscall) :
  creation_effect g r -> value_of r = -1 -> g_next_handle g <> -1 ->
  g_last_error (globals_of r) ∈ error_messages
  /\ g_sockets (globals_of r) = g_sockets g
  /\ g_next_handle (globals_of r) = g_next_handle g.
Proof.
  intros [(msg & Hmsg & _ & ->)|(sock & _ & Hv & _)] Hfail Hn.
  - simpl. auto.
  - exfalso. apply Hn. rewrite <- Hv. exact Hfail.
Qed.

(** C10. On globals that are not initialised, [zmq_create_publisher] and
    [zmq_create_subscriber] first run the initialisation.  When [WSAStartup]
    fails they return -1 with the text "WSAStartup failed", after that one
    call.  When it succeeds the globals are initialised and the creation goes
    on: with the address parsed and every socket call succeeding it returns
    the counter, registers the new socket and has issued [WSAStartup] and
    then the calls of the creation; and when it returns -1 (the counter not
    being -1) one of the creation's own steps has failed, the text is one of
    the DLL's messages, and registry and counter are as before.  No outcome
    is a failure for being uninitialised. *)
Theorem create_initializes_on_demand (os : OS) (address : string) (g : Globals) :
  g_initialized g = false ->
  (os_WSAStartup os <> 0 ->
     zmq_create_publisher os address g
     = (-1, with_last_error "WSAStartup failed" g, [sys_WSAStartup (os_WSAStartup os)])
     /\ zmq_create_subscriber os address g
        = (-1, with_last_error "WSAStartup failed" g, [sys_WSAStartup (os_WSAStartup os)]))
  /\ (os_WSAStartup os = 0 ->
        g_initialized (globals_of (zmq_create_publisher os address g)) = true
        /\ g_initialized (globals_of (zmq_create_subscriber os address g)) = true
        /\ (forall (host : string) (port sin_addr : Z),
              value_of (ParseAddress address g) = Some (host, port) ->
              os_socket os <> INVALID_SOCKET ->
              StringToAddr os host = Some sin_addr ->
              os_bind os <> SOCKET_ERROR -> os_listen os <> SOCKET_ERROR ->
              zmq_create_publisher os address g
              = (g_next_handle g,
                 registered (new_publisher os address) (with_initialized true g),
                 [sys_WSAStartup 0;
                  sys_socket (os_socket os); sys_setsockopt_SO_REUSEADDR (os_socket os);
                  sys_ioctlsocket_FIONBIO (os_socket os);
                  sys_bind (os_socket os) sin_addr (u_short port) (os_bind os);
                  sys_listen (os_socket os) (os_listen os)]))
        /\ (forall (host : string) (port sin_addr : Z),
              value_of (ParseAddress address g) = Some (host, port) ->
              os_socket os <> INVALID_SOCKET ->
              StringToAddr os
                (if decide (host = "localhost"%string) then "127.0.0.1"%string else host)
              = Some sin_addr ->
              os_connect os <> SOCKET_ERROR ->
              zmq_create_subscriber os address g
              = (g_next_handle g,
                 registered (new_subscriber os address) (with_initialized true g),
                 [sys_WSAStartup 0;
                  sys_socket (os_socket os);
                  sys_connect (os_socket os) sin_addr (u_short port) (os_connect os);
                  sys_ioctlsocket_FIONBIO (os_socket os)]))
        /\ (value_of (zmq_create_publisher os address g) = -1 ->
            g_next_handle g <> -1 ->
            (value_of (ParseAddress address g) = None
             \/ os_socket os = INVALID_SOCKET
             \/ (exists (host : string) (port : Z),
                   value_of (ParseAddress address g) = Some (host, port)
                   /\ StringToAddr os host = None)
             \/ os_bind os = SOCKET_ERROR
             \/ os_listen os = SOCKET_ERROR)
            /\ g_last_error (globals_of (zmq_create_publisher os address g)) ∈ error_messages
            /\ g_sockets (globals_of (zmq_create_publisher os address g)) = g_sockets g
            /\ g_next_handle (globals_of (zmq_create_publisher os address g))
               = g_next_handle g)
        /\ (value_of (zmq_create_subscriber os address g) = -1 ->
            g_next_handle g <> -1 ->
            (value_of (ParseAddress address g) = None
             \/ os_socket os = INVALID_SOCKET
             \/ (exists (host : string) (port : Z),
                   value_of (ParseAddress address g) = Some (host, port)
                   /\ StringToAddr os
                        (if decide (host = "localhost"%string) then "127.0.0.1"%string
                         else host) = None)
             \/ os_connect os = SOCKET_ERROR)
            /\ g_last_error (globals_of (zmq_create_subscriber os address g)) ∈ error_messages
            /\ g_sockets (globals_of (zmq_create_subscriber os address g)) = g_sockets g
            /\ g_next_handle (globals_of (zmq_create_subscriber os address g))
               = g_next_handle g)).
Proof.
  intros Hinit. rewrite !zmq_create_publisher_after_init, !zmq_create_subscriber_after_init.
  split.
  { intros Hwsa. rewrite !after_init_failed by assumption. split; reflexivity. }
  intros Hwsa. rewrite !after_init_started by assumption.
  set (g1 := with_initialized true g).
  pose proof (zmq_create_publisher_locked_effect os address g1) as Hpub.
  pose proof (zmq_create_subscriber_locked_effect os address g1) as Hsub.
  assert (Hparse : value_of (ParseAddress address g1) = value_of (ParseAddress address g))
    by apply ParseAddress_value_any.
  unfold value_of at 1 3, globals_of at 1 2 3 4 5 6 7 8. cbn [fst snd].
  split; [exact (creation_effect_initialized g1 _ Hpub)|].
  split; [exact (creation_effect_initialized g1 _ Hsub)|].
  split.
  { intros host port sin_addr Hp Hs Haddr Hb Hl.
    rewrite (zmq_create_publisher_locked_success os address g1 host port sin_addr
               (eq_trans Hparse Hp) Hs Haddr Hb Hl). reflexivity. }
  split.
  { intros host port sin_addr Hp Hs Haddr Hc.
    rewrite (zmq_create_subscriber_locked_success os address g1 host port sin_addr
               (eq_trans Hparse Hp) Hs Haddr Hc). reflexivity. }
  split.
  - intros Hfail Hn.
    split; [|exact (creation_effect_failure g1 _ Hpub Hfail Hn)].
    destruct (value_of (ParseAddress address g)) as [[host port]|] eqn:Hp; [|left; reflexivity].
    destruct (decide (os_socket os = INVALID_SOCKET)) as [|Hs]; [right; left; assumption|].
    destruct (StringToAddr os host) as [sin_addr|] eqn:Haddr;
      [|right; right; left; exists host, port; split; [reflexivity | exact Haddr]].
    destruct (decide (os_bind os = SOCKET_ERROR)) as [|Hb];
      [right; right; right; left; assumption|].
    destruct (decide (os_listen os = SOCKET_ERROR)) as [|Hl];
      [right; right; right; right; assumption|].
    exfalso. apply Hn. rewrite <- Hfail.
    rewrite (zmq_create_publisher_locked_success os address g1 host port sin_addr);
      [reflexivity | rewrite Hparse; reflexivity | assumption..].
  - intros Hfail Hn.
    split; [|exact (creation_effect_failure g1 _ Hsub Hfail Hn)].
    destruct (value_of (ParseAddress address g)) as [[host port]|] eqn:Hp; [|left; reflexivity].
    destruct (decide (os_socket os = INVALID_SOCKET)) as [|Hs]; [right; left; assumption|].
    destruct (StringToAddr os
                (if decide (host = "localhost"%string) then "127.0.0.1"%string else host))
      as [sin_addr|] eqn:Haddr;
      [|right; right; left; exists host, port; split; [reflexivity | exact Haddr]].
    destruct (decide (os_connect os = SOCKET_ERROR)) as [|Hc];
      [right; right; right; assumption|].
    exfalso. apply Hn. rewrite <- Hfail.
    rewrite (zmq_create_subscriber_locked_success os address g1 host port sin_addr);
      [reflexivity | rewrite Hparse; reflexivity | assumption..].
Qed.

Lemma create_initializes_on_demand_witness :
  zmq_create_publisher Fixture.os_quiet "tcp://*:5558" initial_globals
  = (1,
     registered (new_publisher Fixture.os_quiet "tcp://*:5558")
       (with_initialized true initial_globals),
     [sys_WSAStartup 0; sys_socket 400; sys_setsockopt_SO_REUSEADDR 400;
      sys_ioctlsocket_FIONBIO 400; sys_bind 400 16777343 5558 0; sys_listen 400 0]).
Proof.
  destruct (create_initializes_on_demand Fixture.os_quiet "tcp://*:5558" initial_globals)
    as [_ Hok].
  - reflexivity.
  - destruct Hok as (_ & _ & Hpub & _); [reflexivity|].
    apply (Hpub "0.0.0.0"%string 5558 16777343).
    + vm_compute. reflexivity.
    + vm_compute. discriminate.
    + vm_compute. reflexivity.
    + vm_compute. discriminate.
    + vm_compute. discriminate.
Defined.
